(** * ISTA and FISTA of the TIGRE toolbox (Python/tigre/algorithms/ista_algorithms.py)

    A shallow embedding of the two classes [FISTA] and [ISTA] and of the
    properties of their constructor, gradient step and main loop.

    Conventions of the embedding.
    - numpy arrays are lists of reals: a volume is a flat [list R], a block of
      projection rows is a [list (list R)].  Floating-point numbers are
      idealised as real numbers ([R]); rounding, overflow, [inf] and [nan] are
      outside the model.
    - An element-wise operation on two arrays of different sizes raises
      [ValueError]; numpy's broadcasting between different shapes is not
      modelled.
    - Python values held in the keyword dictionary are [pyval]s; the dictionary
      is a [gmap string pyval].
    - A division [1. / x] raises [ZeroDivisionError] when [x] is zero, as for
      Python floats.
    - A method is a computation in a state-and-exception monad over the
      instance attributes; the gradient steps and the calls to the denoiser
      and to the quality tracker are also recorded in a call log, so that
      statements about the order and the arguments of these calls can be
      made.
    - [copy.deepcopy] is the identity on immutable values: no array of the
      model is shared. *)

From Stdlib Require Import Reals Lra Lia ZArith List.
From stdpp Require Import base option list strings gmap.

Open Scope R_scope.

(** ** Exceptions and results *)

Inductive exn : Type :=
| TypeError
| ValueError
| IndexError
| ZeroDivisionError
| ExternalFailure (msg : string).

Inductive result (A : Type) : Type :=
| Ok (a : A)
| Raise (e : exn).
Arguments Ok {A} a.
Arguments Raise {A} e.

#[global] Instance result_ret : MRet result := fun _ a => Ok a.
#[global] Instance result_bind : MBind result := fun _ _ f m =>
  match m with
  | Ok a => f a
  | Raise e => Raise e
  end.

Definition from_option {A : Type} (e : exn) (o : option A) : result A :=
  match o with
  | Some a => Ok a
  | None => Raise e
  end.

(** ** Python values and float arithmetic on them *)

Inductive pyval : Type :=
| PNone
| PInt (z : Z)
| PFloat (r : R)
| PStr (s : string).

(** The numeric value of an [int] or a [float]. *)
Definition as_number (v : pyval) : option R :=
  match v with
  | PInt z => Some (IZR z)
  | PFloat r => Some r
  | PNone | PStr _ => None
  end.

(** [a * v] for a float [a]. *)
Definition float_mul (a : R) (v : pyval) : result R :=
  match as_number v with
  | Some r => Ok (a * r)
  | None => Raise TypeError
  end.

(** [a / v] for a float [a] (true division). *)
Definition float_truediv (a : R) (v : pyval) : result R :=
  match as_number v with
  | Some r => if Req_dec_T r 0 then Raise ZeroDivisionError else Ok (a / r)
  | None => Raise TypeError
  end.

(** ** Arrays *)

Definition array := list R.
Definition rows := list (list R).

Fixpoint np_zip (f : R -> R -> R) (a b : array) : result array :=
  match a, b with
  | [], [] => Ok []
  | x :: a', y :: b' =>
      match np_zip f a' b' with
      | Ok c => Ok (f x y :: c)
      | Raise e => Raise e
      end
  | _, _ => Raise ValueError
  end.

Fixpoint np_zip2 (f : R -> R -> R) (a b : rows) : result rows :=
  match a, b with
  | [], [] => Ok []
  | x :: a', y :: b' =>
      match np_zip f x y with
      | Ok r =>
          match np_zip2 f a' b' with
          | Ok c => Ok (r :: c)
          | Raise e => Raise e
          end
      | Raise e => Raise e
      end
  | _, _ => Raise ValueError
  end.

Definition np_add : array -> array -> result array := np_zip Rplus.
Definition np_sub : array -> array -> result array := np_zip Rminus.
Definition np_sub2 : rows -> rows -> result rows := np_zip2 Rminus.
Definition np_scale (c : R) (a : array) : array := map (Rmult c) a.

(** The element-wise operations written as total functions, for stating
    results. *)
Definition vadd (a b : array) : array := zip_with Rplus a b.
Definition vsub (a b : array) : array := zip_with Rminus a b.
Definition vsub2 (a b : rows) : rows := zip_with vsub a b.

(** [proj[idx]] with an array of indices [idx]. *)
Fixpoint take_rows (proj : rows) (idx : list nat) : result rows :=
  match idx with
  | [] => Ok []
  | k :: idx' =>
      match proj !! k with
      | Some r =>
          match take_rows proj idx' with
          | Ok rs => Ok (r :: rs)
          | Raise e => Raise e
          end
      | None => Raise IndexError
      end
  end.

(** ** The algorithm, over its external collaborators *)

(** The geometry description and one acquisition angle are opaque to the
    optimiser. *)
Class Geometry : Type := {
  geometry : Type;
  angle_t : Type
}.

Section Objects.
Context `{Geometry}.

(** The attributes that [IterativeReconAlg.__init__] leaves on the instance and
    that this file reads or writes. *)
Record IterativeReconAlg_obj : Type := {
  res : array;
  proj : rows;
  geo : geometry;
  angles : list angle_t;
  angleblocks : list (list angle_t);
  angle_index : list (list nat);
  niter : Z;
  Quameasopts : option (list string);
  verbose : bool;
  lmbda : pyval;
  lq : list (list R)
}.

(** An instance of [FISTA] (or of its subclass [ISTA]) after construction.
    [__t__] holds the integer [1], which the loop only uses in float
    arithmetic; it is kept as a real. *)
Record FISTA_obj : Type := {
  super : IterativeReconAlg_obj;
  __L__ : pyval;
  __numiter_tv__ : pyval;
  __lambda__ : pyval;
  __t__ : R;
  __bm__ : R
}.

Definition with_res (r : array) (o : FISTA_obj) : FISTA_obj :=
  {| super := {| res := r;
                 proj := proj (super o);
                 geo := geo (super o);
                 angles := angles (super o);
                 angleblocks := angleblocks (super o);
                 angle_index := angle_index (super o);
                 niter := niter (super o);
                 Quameasopts := Quameasopts (super o);
                 verbose := verbose (super o);
                 lmbda := lmbda (super o);
                 lq := lq (super o) |};
     __L__ := __L__ o;
     __numiter_tv__ := __numiter_tv__ o;
     __lambda__ := __lambda__ o;
     __t__ := __t__ o;
     __bm__ := __bm__ o |}.

Definition with_lq (q : list (list R)) (o : FISTA_obj) : FISTA_obj :=
  {| super := {| res := res (super o);
                 proj := proj (super o);
                 geo := geo (super o);
                 angles := angles (super o);
                 angleblocks := angleblocks (super o);
                 angle_index := angle_index (super o);
                 niter := niter (super o);
                 Quameasopts := Quameasopts (super o);
                 verbose := verbose (super o);
                 lmbda := lmbda (super o);
                 lq := q |};
     __L__ := __L__ o;
     __numiter_tv__ := __numiter_tv__ o;
     __lambda__ := __lambda__ o;
     __t__ := __t__ o;
     __bm__ := __bm__ o |}.

Definition with_lmbda (v : pyval) (b : IterativeReconAlg_obj) : IterativeReconAlg_obj :=
  {| res := res b;
     proj := proj b;
     geo := geo b;
     angles := angles b;
     angleblocks := angleblocks b;
     angle_index := angle_index b;
     niter := niter b;
     Quameasopts := Quameasopts b;
     verbose := verbose b;
     lmbda := v;
     lq := lq b |}.

(** *** Calls that are recorded *)

Inductive event : Type :=
| Call_update_image (angle : list angle_t) (iteration : nat)
| Call_im3ddenoise (img : array) (iter : pyval) (strength : R)
| Call_error_measurement (res_prev : option array) (i : nat).

Record world : Type := {
  self : FISTA_obj;
  calls : list event
}.

End Objects.

(** *** External collaborators

    The operators, the denoiser, the quality metrics and the base class are
    used through their interface only.  They are functions of their arguments:
    they keep no state and change none of their inputs. *)
Class Collaborators `{Geometry} : Type := {
  (** [tigre.Ax(volume, geo, angles, mode)]: forward projection. *)
  Ax : array -> geometry -> list angle_t -> string -> result rows;
  (** [tigre.Atb(rows, geo, angles, mode)]: back-projection. *)
  Atb : rows -> geometry -> list angle_t -> string -> result array;
  (** [im3ddenoise(img, iter, lmbda)]: the total-variation denoiser. *)
  im3ddenoise : array -> pyval -> R -> result array;
  (** One named quality metric of a previous (or absent) estimate and the
      current one. *)
  quality_metric : string -> option array -> array -> R;
  (** [IterativeReconAlg.__init__(self, proj, geo, angles, niter, **kwargs)]:
      the base-class constructor, which is not part of this file. *)
  IterativeReconAlg___init__ :
    rows -> geometry -> list angle_t -> Z -> gmap string pyval ->
    result IterativeReconAlg_obj
}.

Section Algorithms.
Context `{Collaborators}.

(** *** The state-and-exception monad of methods *)

Definition M (A : Type) : Type := world -> result (A * world).

#[global] Instance M_ret : MRet M := fun _ a w => Ok (a, w).
#[global] Instance M_bind : MBind M := fun _ _ f m w =>
  match m w with
  | Ok (a, w') => f a w'
  | Raise e => Raise e
  end.

Definition get_self : M FISTA_obj := fun w => Ok (self w, w).
Definition set_res (r : array) : M unit :=
  fun w => Ok (tt, {| self := with_res r (self w); calls := calls w |}).
Definition set_lq (q : list (list R)) : M unit :=
  fun w => Ok (tt, {| self := with_lq q (self w); calls := calls w |}).
Definition record_call (e : event) : M unit :=
  fun w => Ok (tt, {| self := self w; calls := calls w ++ [e] |}).
Definition lift {A : Type} (r : result A) : M A :=
  fun w => match r with
           | Ok a => Ok (a, w)
           | Raise e => Raise e
           end.

(** [for i in ks: loc = body loc i], threading the loop-carried locals. *)
Fixpoint for_each {L : Type} (body : L -> nat -> M L) (ks : list nat) (loc : L) : M L :=
  match ks with
  | [] => mret loc
  | i :: ks' => loc' ← body loc i; for_each body ks' loc'
  end.

(** [range(n)] for a Python integer [n]: empty when [n <= 0]. *)
Definition range (n : Z) : list nat := seq 0 (Z.to_nat n).

(** *** FISTA.__init__ (lines 121-143) *)

(** The two [kwargs.update] calls of lines 124-127. *)
Definition FISTA_kwargs (angles : list angle_t) (kwargs : gmap string pyval)
  : gmap string pyval :=
  <["blocksize" := PInt (Z.of_nat (length angles))]>
    (<["V" := PNone]> (<["W" := PNone]> kwargs)).

Definition FISTA___init__ (proj : rows) (geo : geometry) (angles : list angle_t)
    (niter : Z) (kwargs : gmap string pyval) : result FISTA_obj :=
  let kwargs := FISTA_kwargs angles kwargs in
  b ← IterativeReconAlg___init__ proj geo angles niter kwargs;
  let b := with_lmbda (PFloat 0.1) b in
  let L := match kwargs !! "hyper" with
           | None => PFloat 2e4
           | Some v => v
           end in
  let numiter_tv := match kwargs !! "tviter" with
                    | None => PInt 20
                    | Some v => v
                    end in
  let lambda := match kwargs !! "lambda" with
                | None => PFloat 0.1
                | Some v => v
                end in
  bm ← float_truediv 1 L;
  mret {| super := b;
          __L__ := L;
          __numiter_tv__ := numiter_tv;
          __lambda__ := lambda;
          __t__ := 1;
          __bm__ := bm |}.

(** *** FISTA.update_image (lines 146-159) *)

Definition update_image (geo : geometry) (angle : list angle_t) (iteration : nat)
  : M unit :=
  _ ← record_call (Call_update_image angle iteration);
  o ← get_self;
  idx ← lift (from_option IndexError (angle_index (super o) !! iteration));
  p ← lift (take_rows (proj (super o)) idx);
  fp ← lift (Ax (res (super o)) geo angle "interpolated");
  d ← lift (np_sub2 p fp);
  bp ← lift (Atb d geo angle "matched");
  r ← lift (np_add (res (super o)) (np_scale (__bm__ o * 2) bp));
  set_res r.

(** *** The inherited methods called by the main loops *)

(** Modelled from the spec: the method that
    [getattr(self, self.dataminimizing)()] resolves to (lines 184 and 225)
    belongs to [IterativeReconAlg], which is not in this file.  After section
    4.3, step 1, it is one full pass of the gradient-step update over all
    blocks of the angle partition, in order; the resolution by name is not
    modelled. *)
Definition dataminimizing : M unit :=
  o ← get_self;
  for_each
    (fun (_ : unit) j =>
       angle ← lift (from_option IndexError (angleblocks (super o) !! j));
       update_image (geo (super o)) angle j)
    (seq 0 (length (angleblocks (super o)))) tt.

(** Modelled from the spec: [IterativeReconAlg.error_measurement(res_prev, i)]
    is not in this file.  After section 4.5 it is a no-op when no metric is
    requested, and otherwise computes each requested metric of the pair
    (previous estimate or none, current estimate) and appends the record to the
    quality trace. *)
Definition error_measurement (res_prev : option array) (i : nat) : M unit :=
  _ ← record_call (Call_error_measurement res_prev i);
  o ← get_self;
  match Quameasopts (super o) with
  | None => mret tt
  | Some names =>
      set_lq (lq (super o) ++
              [map (fun nm => quality_metric nm res_prev (res (super o))) names])
  end.

(** The call [im3ddenoise(img, iter, strength)], recorded. *)
Definition call_im3ddenoise (img : array) (iter : pyval) (strength : R) : M array :=
  _ ← record_call (Call_im3ddenoise img iter strength);
  lift (im3ddenoise img iter strength).

(** *** FISTA.run_main_iter (lines 161-192) *)

(** Line 189. *)
Definition t_next (t : R) : R := (1 + sqrt (1 + 4 * t ^ 2)) / 2.

(** The body of the loop, lines 172-192, on the loop-carried locals [t] and
    [x_rec].  The progress messages of lines 175-183 only print and read the
    clock; they touch no attribute and are left out. *)
Definition FISTA_iteration (Quameasopts : option (list string)) (lambdaForTv : R)
    (loc : R * array) (i : nat) : M (R * array) :=
  let '(t, x_rec) := loc in
  o ← get_self;
  let res_prev := match Quameasopts with
                  | None => None
                  | Some _ => Some (res (super o))
                  end in
  _ ← dataminimizing;
  let x_rec_old := x_rec in
  o ← get_self;
  strength ← lift (float_truediv 1 (PFloat lambdaForTv));
  x_rec ← call_im3ddenoise (res (super o)) (__numiter_tv__ o) strength;
  let t_old := t in
  let t := t_next t in
  d ← lift (np_sub x_rec x_rec_old);
  r ← lift (np_add x_rec (np_scale ((t_old - 1) / t) d));
  _ ← set_res r;
  _ ← error_measurement res_prev i;
  mret (t, x_rec).

(** The loop of line 170 with its locals made explicit. *)
Definition FISTA_loop (Quameasopts : option (list string)) (lambdaForTv : R)
    (ks : list nat) (loc : R * array) : M (R * array) :=
  for_each (FISTA_iteration Quameasopts lambdaForTv) ks loc.

Definition FISTA_run_main_iter : M unit :=
  o ← get_self;
  let t := __t__ o in
  let Quameasopts := Quameasopts (super o) in
  let x_rec := res (super o) in
  lambdaForTv ← lift (float_mul (2 * __bm__ o) (__lambda__ o));
  _ ← FISTA_loop Quameasopts lambdaForTv (range (niter (super o))) (t, x_rec);
  mret tt.

(** [FISTA.run_main_iter] cut after its first [n] iterations, returning the
    loop-carried locals [(t, x_rec)] as well: the state of a run between its
    iterations. *)
Definition FISTA_after (n : nat) : M (R * array) :=
  o ← get_self;
  let t := __t__ o in
  let Quameasopts := Quameasopts (super o) in
  let x_rec := res (super o) in
  lambdaForTv ← lift (float_mul (2 * __bm__ o) (__lambda__ o));
  FISTA_loop Quameasopts lambdaForTv (seq 0 n) (t, x_rec).

(** *** ISTA.run_main_iter (lines 204-229) *)

Definition ISTA_iteration (Quameasopts : option (list string)) (lambdaForTv : R)
    (_ : unit) (i : nat) : M unit :=
  o ← get_self;
  let res_prev := match Quameasopts with
                  | None => None
                  | Some _ => Some (res (super o))
                  end in
  _ ← dataminimizing;
  o ← get_self;
  strength ← lift (float_truediv 1 (PFloat lambdaForTv));
  r ← call_im3ddenoise (res (super o)) (PInt 20) strength;
  _ ← set_res r;
  error_measurement res_prev i.

Definition ISTA_loop (Quameasopts : option (list string)) (lambdaForTv : R)
    (ks : list nat) : M unit :=
  for_each (ISTA_iteration Quameasopts lambdaForTv) ks tt.

Definition ISTA_run_main_iter : M unit :=
  o ← get_self;
  let Quameasopts := Quameasopts (super o) in
  lambdaForTv ← lift (float_mul (2 * __bm__ o) (lmbda (super o)));
  ISTA_loop Quameasopts lambdaForTv (range (niter (super o))).

(** [ISTA.run_main_iter] cut after its first [n] iterations. *)
Definition ISTA_after (n : nat) : M unit :=
  o ← get_self;
  let Quameasopts := Quameasopts (super o) in
  lambdaForTv ← lift (float_mul (2 * __bm__ o) (lmbda (super o)));
  ISTA_loop Quameasopts lambdaForTv (seq 0 n).

(** *** Classes and method resolution (lines 12, 198-202) *)

Inductive class : Type := FISTA | ISTA.

Inductive method_def : Type :=
| def_FISTA___init__
| def_FISTA_update_image
| def_FISTA_run_main_iter
| def_ISTA___int__
| def_ISTA_run_main_iter.

(** The methods each class body defines, under the names they are spelled
    with. *)
Definition class_dict (c : class) : gmap string method_def :=
  match c with
  | FISTA => <["__init__" := def_FISTA___init__]>
             (<["update_image" := def_FISTA_update_image]>
             (<["run_main_iter" := def_FISTA_run_main_iter]> ∅))
  | ISTA => <["__int__" := def_ISTA___int__]>
            (<["run_main_iter" := def_ISTA_run_main_iter]> ∅)
  end.

(** The method resolution order, up to [FISTA] ([IterativeReconAlg] defines
    none of the names looked up here before [FISTA] does). *)
Definition mro (c : class) : list class :=
  match c with
  | FISTA => [FISTA]
  | ISTA => [ISTA; FISTA]
  end.

Fixpoint lookup_mro (cs : list class) (name : string) : option method_def :=
  match cs with
  | [] => None
  | c :: cs' =>
      match class_dict c !! name with
      | Some d => Some d
      | None => lookup_mro cs' name
      end
  end.

Definition resolve (c : class) (name : string) : option method_def :=
  lookup_mro (mro c) name.

(** Line 201-202: the body of the method [ISTA.__int__]. *)
Definition ISTA___int__ (proj : rows) (geo : geometry) (angles : list angle_t)
    (niter : Z) (kwargs : gmap string pyval) : result FISTA_obj :=
  FISTA___init__ proj geo angles niter kwargs.

(** [cls(proj, geo, angles, niter, **kwargs)]: the instance is initialised by
    whatever [__init__] resolves to on the class. *)
Definition construct (c : class) (proj : rows) (geo : geometry)
    (angles : list angle_t) (niter : Z) (kwargs : gmap string pyval)
  : result FISTA_obj :=
  match resolve c "__init__" with
  | Some def_FISTA___init__ => FISTA___init__ proj geo angles niter kwargs
  | Some def_ISTA___int__ => ISTA___int__ proj geo angles niter kwargs
  | _ => Raise TypeError
  end.

(** [alg.run_main_iter()] on an instance of class [c]. *)
Definition run_main_iter (c : class) : M unit :=
  match resolve c "run_main_iter" with
  | Some def_FISTA_run_main_iter => FISTA_run_main_iter
  | Some def_ISTA_run_main_iter => ISTA_run_main_iter
  | _ => lift (Raise TypeError)
  end.

End Algorithms.

(** ** Vocabulary of the statements *)

Section Vocabulary.
Context `{Collaborators}.

(** Two blocks of rows have the same shape. *)
Definition same_shape (a b : rows) : Prop :=
  Forall2 (fun x y : list R => length x = length y) a b.

(** The world after a gradient step that back-projected [bp]. *)
Definition after_update (angle : list angle_t) (iteration : nat) (bp : array)
    (w : world) : world :=
  {| self := with_res (vadd (res (super (self w)))
                            (np_scale (2 * __bm__ (self w)) bp)) (self w);
     calls := calls w ++ [Call_update_image angle iteration] |}.

(** Every attribute except the estimate [res] and the quality trace [lq]. *)
Definition config (o : FISTA_obj) :=
  (__L__ o, __numiter_tv__ o, __lambda__ o, __t__ o, __bm__ o,
   (proj (super o), geo (super o), angles (super o), angleblocks (super o),
    angle_index (super o), niter (super o), Quameasopts (super o),
    verbose (super o), lmbda (super o))).

Definition is_update_image (e : event) : Prop :=
  match e with
  | Call_update_image _ _ => True
  | _ => False
  end.

(** [w'] comes from [w] by gradient steps only. *)
Definition gradient_steps (w w' : world) : Prop :=
  config (self w') = config (self w) /\
  lq (super (self w')) = lq (super (self w)) /\
  exists evs, calls w' = calls w ++ evs /\ Forall is_update_image evs.

(** The instance after [error_measurement(res_prev, i)]. *)
Definition measured (res_prev : option array) (o : FISTA_obj) : FISTA_obj :=
  match Quameasopts (super o) with
  | None => o
  | Some names =>
      with_lq (lq (super o) ++
               [map (fun nm => quality_metric nm res_prev (res (super o))) names]) o
  end.

(** The [res_prev] of lines 172-174 and 213-215. *)
Definition res_prev_of (Quameasopts : option (list string)) (w : world)
  : option array :=
  match Quameasopts with
  | None => None
  | Some _ => Some (res (super (self w)))
  end.

(** The world after an iteration of FISTA that started in [w] with locals
    [(t, x)], whose gradient pass gave [w1] and whose denoiser call gave
    [x']. *)
Definition FISTA_iterated (Quameasopts : option (list string)) (lambdaForTv : R)
    (t : R) (x : array) (i : nat) (w w1 : world) (x' : array) : world :=
  {| self := measured (res_prev_of Quameasopts w)
               (with_res (vadd x' (np_scale ((t - 1) / t_next t) (vsub x' x)))
                         (self w1));
     calls := calls w1 ++
              [Call_im3ddenoise (res (super (self w1))) (__numiter_tv__ (self w1))
                                (1 / lambdaForTv);
               Call_error_measurement (res_prev_of Quameasopts w) i] |}.

(** The world after an iteration of ISTA that started in [w], whose gradient
    pass gave [w1] and whose denoiser call gave [x']. *)
Definition ISTA_iterated (Quameasopts : option (list string)) (lambdaForTv : R)
    (i : nat) (w w1 : world) (x' : array) : world :=
  {| self := measured (res_prev_of Quameasopts w) (with_res x' (self w1));
     calls := calls w1 ++
              [Call_im3ddenoise (res (super (self w1))) (PInt 20)
                                (1 / lambdaForTv);
               Call_error_measurement (res_prev_of Quameasopts w) i] |}.

(** The local [t] after [n] iterations of the loop entered with [t0]. *)
Fixpoint momentum (t0 : R) (n : nat) : R :=
  match n with
  | O => t0
  | S n' => t_next (momentum t0 n')
  end.

(** The indices [i] of the quality-tracker calls of a log, in order. *)
Definition error_measurement_indices (cs : list event) : list nat :=
  omap (fun e => match e with
                 | Call_error_measurement _ i => Some i
                 | _ => None
                 end) cs.

(** The arguments of the denoiser calls of a log, in order. *)
Definition denoise_calls (cs : list event) : list (array * pyval * R) :=
  omap (fun e => match e with
                 | Call_im3ddenoise img iter s => Some (img, iter, s)
                 | _ => None
                 end) cs.

(** An array of zeros, and a block of rows of zeros. *)
Definition all_zero (a : array) : Prop := Forall (fun v => v = 0) a.
Definition all_zero_rows (r : rows) : Prop := Forall all_zero r.


(** Two results agree up to the call log: the same value and the same
    instance, or the same exception. *)
Definition same_self {A : Type} (r1 r2 : result (A * world)) : Prop :=
  match r1, r2 with
  | Ok (a1, w1), Ok (a2, w2) => a1 = a2 /\ self w1 = self w2
  | Raise e1, Raise e2 => e1 = e2
  | _, _ => False
  end.

(** Two computations do the same to the same instance, whatever the logs. *)
Definition self_sim {A : Type} (m1 m2 : M A) : Prop :=
  forall w v, self w = self v -> same_self (m1 w) (m2 v).


End Vocabulary.

(** ** A small concrete setting

    One detector pixel per angle and a volume of one voxel per detector pixel:
    the forward projection of the angles [a1 .. ak] gives [k] copies of the
    volume, the back-projection gives the first row back, and the denoiser is
    the identity.  The base constructor starts from a zero volume, puts all
    angles in one block and turns quality measurement on when the keyword
    [Quameasopts] is present. *)

Module Demo.

Definition demo_geometry : Geometry := {| geometry := unit; angle_t := nat |}.
#[local] Existing Instance demo_geometry.

Definition demo_Ax (v : array) (_ : unit) (angle : list nat) (_ : string)
  : result rows := Ok (map (fun _ => v) angle).

Definition demo_Atb (r : rows) (_ : unit) (_ : list nat) (_ : string)
  : result array := Ok (hd [] r).

Definition demo_im3ddenoise (img : array) (_ : pyval) (_ : R) : result array :=
  Ok img.

Definition demo_quality_metric (_ : string) (_ : option array) (_ : array) : R := 0.

Definition demo_base_init (proj : rows) (geo : unit) (angles : list nat)
    (niter : Z) (kwargs : gmap string pyval) : result IterativeReconAlg_obj :=
  Ok {| res := map (fun _ => 0) (hd [] proj);
        proj := proj;
        geo := geo;
        angles := angles;
        angleblocks := [angles];
        angle_index := [seq 0 (length angles)];
        niter := niter;
        Quameasopts := match kwargs !! "Quameasopts" with
                       | Some (PStr m) => Some [m]
                       | _ => None
                       end;
        verbose := false;
        lmbda := PFloat 1;
        lq := [] |}.

Definition demo_collaborators : Collaborators :=
  {| Ax := demo_Ax;
     Atb := demo_Atb;
     im3ddenoise := demo_im3ddenoise;
     quality_metric := demo_quality_metric;
     IterativeReconAlg___init__ := demo_base_init |}.

(** The instance one gets from two angles measuring [-1] and [3], [niter]
    iterations and keywords [kwargs] without [hyper] and [tviter]. *)
Definition demo_obj (niter : Z) (kwargs : gmap string pyval) : FISTA_obj :=
  {| super := {| res := [0];
                 proj := [[-1]; [3]];
                 geo := tt;
                 angles := [0%nat; 1%nat];
                 angleblocks := [[0%nat; 1%nat]];
                 angle_index := [[0%nat; 1%nat]];
                 niter := niter;
                 Quameasopts := match kwargs !! "Quameasopts" with
                                | Some (PStr m) => Some [m]
                                | _ => None
                                end;
                 verbose := false;
                 lmbda := PFloat 0.1;
                 lq := [] |};
     __L__ := PFloat 2e4;
     __numiter_tv__ := PInt 20;
     __lambda__ := default (PFloat 0.1) (kwargs !! "lambda");
     __t__ := 1;
     __bm__ := 1 / 2e4 |}.

Definition demo_world (niter : Z) (kwargs : gmap string pyval) : world :=
  {| self := demo_obj niter kwargs; calls := [] |}.

#[local] Existing Instance demo_collaborators.

(** The world after the gradient pass of the first iteration: the residual of
    the first angle, [-1 - 0], is back-projected. *)
Definition demo_gradient (niter : Z) (kwargs : gmap string pyval) : world :=
  after_update [0%nat; 1%nat] 0 [-1 - 0] (demo_world niter kwargs).

(** [lambdaForTv] for the default [lambda = 0.1]. *)
Definition demo_lambdaForTv : R := 2 * (1 / 2e4) * 0.1.

(** The worlds after the first iteration of FISTA and of ISTA. *)
Definition demo_FISTA_1 (niter : Z) (kwargs : gmap string pyval) : world :=
  FISTA_iterated (Quameasopts (super (demo_obj niter kwargs))) demo_lambdaForTv
    1 [0] 0 (demo_world niter kwargs) (demo_gradient niter kwargs)
    (res (super (self (demo_gradient niter kwargs)))).

Definition demo_ISTA_1 (niter : Z) (kwargs : gmap string pyval) : world :=
  ISTA_iterated (Quameasopts (super (demo_obj niter kwargs))) demo_lambdaForTv
    0 (demo_world niter kwargs) (demo_gradient niter kwargs)
    (res (super (self (demo_gradient niter kwargs)))).


(** An instance whose estimate [[0]] already reproduces its data. *)
Definition demo_consistent_world : world :=
  {| self := {| super := {| res := [0];
                            proj := [[0]; [0]];
                            geo := tt;
                            angles := [0%nat; 1%nat];
                            angleblocks := [[0%nat; 1%nat]];
                            angle_index := [[0%nat; 1%nat]];
                            niter := 1;
                            Quameasopts := None;
                            verbose := false;
                            lmbda := PFloat 0.1;
                            lq := [] |};
                __L__ := PFloat 2e4;
                __numiter_tv__ := PInt 20;
                __lambda__ := PFloat 0.1;
                __t__ := 1;
                __bm__ := 1 / 2e4 |};
     calls := [] |}.

(** The same setting with a back-projection that returns a zero volume. *)
Definition zero_Atb (r : rows) (_ : unit) (_ : list nat) (_ : string)
  : result array := Ok (map (fun _ => 0) (hd [] r)).

Definition zero_collaborators : Collaborators :=
  {| Ax := demo_Ax;
     Atb := zero_Atb;
     im3ddenoise := demo_im3ddenoise;
     quality_metric := demo_quality_metric;
     IterativeReconAlg___init__ := demo_base_init |}.



(** An instance with three measured rows whose single block takes the third
    row and then the first. *)
Definition demo_block_world : world :=
  {| self := {| super := {| res := [0];
                            proj := [[3]; [5]; [-1]];
                            geo := tt;
                            angles := [0%nat; 1%nat; 2%nat];
                            angleblocks := [[2%nat; 0%nat]];
                            angle_index := [[2%nat; 0%nat]];
                            niter := 1;
                            Quameasopts := None;
                            verbose := false;
                            lmbda := PFloat 0.1;
                            lq := [] |};
                __L__ := PFloat 2e4;
                __numiter_tv__ := PInt 20;
                __lambda__ := PFloat 0.1;
                __t__ := 1;
                __bm__ := 1 / 2e4 |};
     calls := [] |}.

(** The second iteration of FISTA in the concrete setting: the voxel after the
    first iteration, the world after the second gradient pass and the world
    after the second iteration. *)
Definition demo_estimate_1 : R :=
  hd 0 (res (super (self (demo_FISTA_1 2 ∅)))).

Definition demo_gradient_2 : world :=
  after_update [0%nat; 1%nat] 0 [-1 - demo_estimate_1] (demo_FISTA_1 2 ∅).

Definition demo_FISTA_2 : world :=
  FISTA_iterated (Quameasopts (super (demo_obj 2 ∅))) demo_lambdaForTv
    (t_next 1) (res (super (self (demo_gradient 2 ∅)))) 1
    (demo_FISTA_1 2 ∅) demo_gradient_2
    (res (super (self demo_gradient_2))).

End Demo.

(** ** Properties *)

Section Properties.
Context `{Collaborators}.

(** *** Element-wise operations *)

Lemma np_zip_ok (f : R -> R -> R) (a b : array) :
  length a = length b -> np_zip f a b = Ok (zip_with f a b).
Proof.
  revert b; induction a as [|x a IH]; intros [|y b] Hlen; simpl in *;
    try discriminate; [reflexivity|].
  rewrite IH by lia. reflexivity.
Qed.

Lemma np_zip_inv (f : R -> R -> R) (a b c : array) :
  np_zip f a b = Ok c -> length a = length b /\ c = zip_with f a b.
Proof.
  revert b c; induction a as [|x a IH]; intros [|y b] c Hz; simpl in *;
    try discriminate.
  - injection Hz as <-. split; reflexivity.
  - destruct (np_zip f a b) as [c'|e] eqn:E; [|discriminate].
    injection Hz as <-. destruct (IH _ _ E) as [-> ->]. split; reflexivity.
Qed.

Lemma np_zip2_ok (f : R -> R -> R) (a b : rows) :
  same_shape a b -> np_zip2 f a b = Ok (zip_with (zip_with f) a b).
Proof.
  induction 1 as [|x y a b Hxy _ IH]; simpl; [reflexivity|].
  rewrite (np_zip_ok f x y Hxy), IH. reflexivity.
Qed.

Lemma np_zip2_inv (f : R -> R -> R) (a b c : rows) :
  np_zip2 f a b = Ok c -> same_shape a b /\ c = zip_with (zip_with f) a b.
Proof.
  revert b c; induction a as [|x a IH]; intros [|y b] c Hz; simpl in *;
    try discriminate.
  - injection Hz as <-. split; [constructor|reflexivity].
  - destruct (np_zip f x y) as [r|e] eqn:Ex; [|discriminate].
    destruct (np_zip2 f a b) as [c'|e] eqn:E; [|discriminate].
    injection Hz as <-. destruct (np_zip_inv _ _ _ _ Ex) as [Hl ->].
    destruct (IH _ _ E) as [Hs ->].
    split; [constructor; assumption|reflexivity].
Qed.

(** *** Float arithmetic *)

Lemma float_mul_inv (a r : R) (v : pyval) :
  float_mul a v = Ok r -> exists x, as_number v = Some x /\ r = a * x.
Proof.
  unfold float_mul. destruct (as_number v) as [x|]; [|discriminate].
  intros [= <-]. exists x. split; reflexivity.
Qed.

Lemma float_mul_ok (a x : R) (v : pyval) :
  as_number v = Some x -> float_mul a v = Ok (a * x).
Proof. unfold float_mul. intros ->. reflexivity. Qed.

Lemma float_truediv_inv (a r : R) (v : pyval) :
  float_truediv a v = Ok r ->
  exists x, as_number v = Some x /\ x <> 0 /\ r = a / x.
Proof.
  unfold float_truediv. destruct (as_number v) as [x|]; [|discriminate].
  destruct (Req_dec_T x 0) as [|Hx]; [discriminate|].
  intros [= <-]. exists x. repeat split; assumption.
Qed.

Lemma float_truediv_ok (a x : R) (v : pyval) :
  as_number v = Some x -> x <> 0 -> float_truediv a v = Ok (a / x).
Proof.
  unfold float_truediv. intros -> Hx.
  destruct (Req_dec_T x 0) as [E|_]; [contradiction|reflexivity].
Qed.

(** *** Sequencing in the monad *)

Lemma bind_inv {A B : Type} (m : M A) (k : A -> M B) (w : world) (r : B * world) :
  (m ≫= k) w = Ok r -> exists a w1, m w = Ok (a, w1) /\ k a w1 = Ok r.
Proof.
  unfold mbind, M_bind. destruct (m w) as [[a w1]|e]; [|discriminate].
  intros Hk. exists a, w1. split; [reflexivity|assumption].
Qed.

Lemma bind_ok {A B : Type} (m : M A) (k : A -> M B) (w w1 : world) (a : A) :
  m w = Ok (a, w1) -> (m ≫= k) w = k a w1.
Proof. unfold mbind, M_bind. intros ->. reflexivity. Qed.

Lemma lift_inv {A : Type} (r : result A) (w : world) (a : A) (w1 : world) :
  lift r w = Ok (a, w1) -> r = Ok a /\ w1 = w.
Proof.
  unfold lift. destruct r; [|discriminate]. intros [= <- <-].
  split; reflexivity.
Qed.

Lemma record_call_inv (e : event) (w w1 : world) (u : unit) :
  record_call e w = Ok (u, w1) ->
  w1 = {| self := self w; calls := calls w ++ [e] |}.
Proof. unfold record_call. intros [= _ <-]. reflexivity. Qed.

Lemma get_self_inv (w w1 : world) (o : FISTA_obj) :
  get_self w = Ok (o, w1) -> o = self w /\ w1 = w.
Proof. unfold get_self. intros [= <- <-]. split; reflexivity. Qed.

Lemma set_res_inv (r : array) (w w1 : world) (u : unit) :
  set_res r w = Ok (u, w1) ->
  w1 = {| self := with_res r (self w); calls := calls w |}.
Proof. unfold set_res. intros [= _ <-]. reflexivity. Qed.

Lemma set_lq_inv (q : list (list R)) (w w1 : world) (u : unit) :
  set_lq q w = Ok (u, w1) ->
  w1 = {| self := with_lq q (self w); calls := calls w |}.
Proof. unfold set_lq. intros [= _ <-]. reflexivity. Qed.

(** Takes a successful sequence of monadic steps apart, one hypothesis per
    step. *)
Ltac step_inv Hu :=
  repeat
    (let a := fresh "a" in
     let w1 := fresh "w" in
     let Hs := fresh "Hs" in
     apply bind_inv in Hu as (a & w1 & Hs & Hu);
     first
       [ apply record_call_inv in Hs; subst w1
       | apply get_self_inv in Hs as [-> ->]
       | apply set_res_inv in Hs; subst w1
       | apply set_lq_inv in Hs; subst w1
       | apply lift_inv in Hs as [Hs ->]
       | idtac ]);
  cbn [self calls] in *.

(** *** The gradient step *)

Lemma np_scale_comm (a b : R) (v : array) :
  np_scale (a * b) v = np_scale (b * a) v.
Proof. unfold np_scale. rewrite (Rmult_comm a b). reflexivity. Qed.

(** *** The array operations, element by element *)

Lemma take_rows_spec (prj : rows) (idx : list nat) (p : rows) :
  take_rows prj idx = Ok p <->
  Forall2 (fun i row => prj !! i = Some row) idx p.
Proof.
  revert p; induction idx as [|i idx IH]; intros p; cbn.
  - split.
    + intros [= <-]. constructor.
    + intros Hp. inversion Hp. reflexivity.
  - destruct (prj !! i) as [row|] eqn:Ei.
    + destruct (take_rows prj idx) as [rs|e].
      * split.
        -- intros [= <-]. constructor; [exact Ei|]. apply IH. reflexivity.
        -- intros Hp. inversion Hp as [|i' row' idx' p' Hrow Hrest]; subst.
           apply IH in Hrest. rewrite Ei in Hrow.
           injection Hrow as <-. injection Hrest as <-. reflexivity.
      * split; [discriminate|].
        intros Hp. inversion Hp as [|i' row' idx' p' Hrow Hrest]; subst.
        apply IH in Hrest. discriminate.
    + split; [discriminate|].
      intros Hp. inversion Hp as [|i' row' idx' p' Hrow Hrest]; subst.
      rewrite Ei in Hrow. discriminate.
Qed.

Lemma vsub_lookup (a b : list R) (j : nat) (x y : R) :
  a !! j = Some x -> b !! j = Some y -> vsub a b !! j = Some (x - y).
Proof.
  intros Ha Hb. unfold vsub, array. rewrite lookup_zip_with, Ha. cbn.
  rewrite Hb. reflexivity.
Qed.

Lemma vsub2_lookup (p fp : list (list R)) (k j : nat) (rp rf : list R)
    (x y : R) :
  p !! k = Some rp -> fp !! k = Some rf ->
  rp !! j = Some x -> rf !! j = Some y ->
  exists rd, vsub2 p fp !! k = Some rd /\ rd !! j = Some (x - y).
Proof.
  intros Hp Hf Hx Hy. exists (vsub rp rf). split.
  - unfold vsub2. revert fp k Hp Hf.
    induction p as [|r p IH]; intros [|f fp] [|k] Hp Hf; cbn in *;
      try discriminate.
    + injection Hp as ->. injection Hf as ->. reflexivity.
    + apply IH; assumption.
  - apply vsub_lookup; assumption.
Qed.

Lemma np_scale_lookup (c : R) (a : list R) (j : nat) (x : R) :
  a !! j = Some x -> np_scale c a !! j = Some (c * x).
Proof.
  unfold np_scale. revert j; induction a as [|v a IH]; intros [|j] Hj;
    cbn in *; try discriminate.
  - injection Hj as ->. reflexivity.
  - apply IH. exact Hj.
Qed.

Lemma vadd_scaled_lookup (c : R) (a b : list R) (j : nat) (x y : R) :
  a !! j = Some x -> b !! j = Some y ->
  vadd a (np_scale c b) !! j = Some (x + c * y).
Proof.
  intros Ha Hb. pose proof (np_scale_lookup c b j y Hb) as Hs.
  unfold vadd, array in *. rewrite lookup_zip_with, Ha, Hs. reflexivity.
Qed.

Lemma vadd_scaled_length (c : R) (a b : array) :
  length b = length a -> length (vadd a (np_scale c b)) = length a.
Proof.
  intros Hlen. unfold vadd, np_scale.
  rewrite length_zip_with, length_map. lia.
Qed.

Lemma update_image_inv (g : geometry) (angle : list angle_t) (iteration : nat)
    (w w' : world) (u : unit) :
  update_image g angle iteration w = Ok (u, w') ->
  exists idx p fp bp,
    angle_index (super (self w)) !! iteration = Some idx /\
    take_rows (proj (super (self w))) idx = Ok p /\
    Ax (res (super (self w))) g angle "interpolated" = Ok fp /\
    same_shape p fp /\
    Atb (vsub2 p fp) g angle "matched" = Ok bp /\
    length bp = length (res (super (self w))) /\
    w' = after_update angle iteration bp w.
Proof.
  unfold update_image. intros Hu. step_inv Hu.
  apply set_res_inv in Hu. subst w'.
  rename a0 into idx, a1 into p, a2 into fp, a3 into d, a4 into bp, a5 into r.
  apply np_zip2_inv in Hs2 as [Hshape ->].
  apply np_zip_inv in Hs4 as [Hlen ->].
  unfold np_scale in Hlen. rewrite length_map in Hlen.
  exists idx, p, fp, bp.
  destruct (angle_index (super (self w)) !! iteration) as [idx'|] eqn:E;
    [|discriminate].
  injection Hs as ->.
  repeat split; try assumption; try (symmetry; assumption).
  unfold after_update, vadd. rewrite (np_scale_comm 2). reflexivity.
Qed.

Lemma update_image_ok (g : geometry) (angle : list angle_t) (iteration : nat)
    (w : world) (idx : list nat) (p fp : rows) (bp : array) :
  angle_index (super (self w)) !! iteration = Some idx ->
  take_rows (proj (super (self w))) idx = Ok p ->
  Ax (res (super (self w))) g angle "interpolated" = Ok fp ->
  same_shape p fp ->
  Atb (vsub2 p fp) g angle "matched" = Ok bp ->
  length bp = length (res (super (self w))) ->
  update_image g angle iteration w = Ok (tt, after_update angle iteration bp w).
Proof.
  intros Hidx Hp Hfp Hshape Hbp Hlen. unfold update_image.
  unfold mbind, M_bind, record_call, get_self, lift, set_res. cbn [self calls].
  rewrite Hidx. cbn [from_option]. rewrite Hp, Hfp.
  unfold np_sub2. rewrite (np_zip2_ok Rminus p fp Hshape).
  change (zip_with (zip_with Rminus) p fp) with (vsub2 p fp). rewrite Hbp.
  unfold np_add. rewrite np_zip_ok
    by (unfold np_scale; rewrite length_map; symmetry; exact Hlen).
  unfold after_update, vadd. rewrite (np_scale_comm 2). reflexivity.
Qed.

(** C1. [update_image] is the method of [FISTA] for both classes.  One
    gradient step returns exactly when the block index is valid, every index
    of the block has a row in [proj], the forward projection succeeds with
    the shape of those rows, and the back-projection of the residual succeeds
    with the shape of the estimate.  The rows [p] are those of [proj] at the
    indices of the block, in the block's order; the residual handed to the
    back-projection is, entry by entry, the measured value minus the projected
    one; and every voxel [r] of the estimate becomes [r + 2 * bm * b] for the
    back-projected value [b] at that voxel, negative or not.  No other
    attribute changes. *)
Theorem update_image_adds_backprojection
    (g : geometry) (angle : list angle_t) (iteration : nat) (w w' : world) :
  resolve ISTA "update_image" = resolve FISTA "update_image" /\
  resolve FISTA "update_image" = Some def_FISTA_update_image /\
  (update_image g angle iteration w = Ok (tt, w') <->
  exists idx p fp bp,
    angle_index (super (self w)) !! iteration = Some idx /\
    Forall2 (fun i row => proj (super (self w)) !! i = Some row) idx p /\
    Ax (res (super (self w))) g angle "interpolated" = Ok fp /\
    same_shape p fp /\
    Atb (vsub2 p fp) g angle "matched" = Ok bp /\
    (forall k j rp rf x y,
        p !! k = Some rp -> fp !! k = Some rf ->
        rp !! j = Some x -> rf !! j = Some y ->
        exists rd, vsub2 p fp !! k = Some rd /\ rd !! j = Some (x - y)) /\
    length bp = length (res (super (self w))) /\
    w' = after_update angle iteration bp w /\
    length (res (super (self w'))) = length (res (super (self w))) /\
    (forall j r b,
        res (super (self w)) !! j = Some r -> bp !! j = Some b ->
        res (super (self w')) !! j = Some (r + 2 * __bm__ (self w) * b))).
Proof.
  split; [reflexivity|]. split; [reflexivity|]. split.
  - intros Hu.
    apply update_image_inv in Hu
      as (idx & p & fp & bp & Hidx & Hp & Hfp & Hshape & Hbp & Hlen & ->).
    exists idx, p, fp, bp.
    split; [exact Hidx|]. split; [apply take_rows_spec, Hp|].
    split; [exact Hfp|]. split; [exact Hshape|]. split; [exact Hbp|].
    split; [intros k j rp rf x y; apply vsub2_lookup|].
    split; [exact Hlen|]. split; [reflexivity|].
    unfold after_update. cbn [self super res with_res]. split.
    + apply vadd_scaled_length, Hlen.
    + intros j r b. apply vadd_scaled_lookup.
  - intros (idx & p & fp & bp & Hidx & Hp & Hfp & Hshape & Hbp & _ & Hlen
            & -> & _).
    apply take_rows_spec in Hp.
    eapply update_image_ok; eassumption.
Qed.

Lemma dataminimizing_one_block (angle : list angle_t) (w w1 : world) :
  angleblocks (super (self w)) = [angle] ->
  update_image (geo (super (self w))) angle 0 w = Ok (tt, w1) ->
  dataminimizing w = Ok (tt, w1).
Proof.
  intros Hb Hu. unfold dataminimizing, mbind at 1, M_bind at 1, get_self.
  rewrite Hb. cbn [length seq for_each lookup list_lookup from_option].
  unfold mbind, M_bind, lift. rewrite Hu. reflexivity.
Qed.

(** *** Loops *)

Lemma for_each_app {L : Type} (body : L -> nat -> M L) (ks1 ks2 : list nat)
    (loc : L) (w : world) :
  for_each body (ks1 ++ ks2) loc w =
  (for_each body ks1 loc ≫= for_each body ks2) w.
Proof.
  revert loc w; induction ks1 as [|i ks1 IH]; intros loc w; simpl.
  - reflexivity.
  - unfold mbind, M_bind in *. destruct (body loc i w) as [[loc1 w1]|e].
    + apply IH.
    + reflexivity.
Qed.

Lemma for_each_invariant {L : Type} (body : L -> nat -> M L)
    (P : world -> world -> Prop) :
  (forall w, P w w) ->
  (forall w0 w l i l' w', P w0 w -> body l i w = Ok (l', w') -> P w0 w') ->
  forall ks loc w loc' w',
    for_each body ks loc w = Ok (loc', w') -> P w w'.
Proof.
  intros Hrefl Hstep ks loc w loc' w'.
  enough (Hgen : forall w0, P w0 w ->
            for_each body ks loc w = Ok (loc', w') -> P w0 w')
    by (apply Hgen, Hrefl).
  revert loc w; induction ks as [|i ks IH]; intros loc w w0 Hw Hf; simpl in Hf.
  - injection Hf as <- <-. exact Hw.
  - apply bind_inv in Hf as (l1 & w1 & Hb & Hf).
    eapply IH; [|exact Hf]. eapply Hstep; eassumption.
Qed.

(** *** What a method leaves alone *)

Lemma gradient_steps_refl (w : world) : gradient_steps w w.
Proof.
  repeat split. exists []. split; [symmetry; apply app_nil_r|constructor].
Qed.

Lemma update_image_gradient_steps (g : geometry) (angle : list angle_t)
    (iteration : nat) (w0 w w' : world) (u : unit) :
  gradient_steps w0 w -> update_image g angle iteration w = Ok (u, w') ->
  gradient_steps w0 w'.
Proof.
  intros (Hc & Hq & evs & Hcalls & Hevs) Hu. unfold update_image in Hu.
  step_inv Hu. apply set_res_inv in Hu. subst w'. cbn [self calls].
  repeat split; try assumption.
  exists (evs ++ [Call_update_image angle iteration]). split.
  - rewrite Hcalls. symmetry. apply app_assoc.
  - apply Forall_app. split; [assumption|]. repeat constructor.
Qed.

Lemma dataminimizing_gradient_steps (w w' : world) (u : unit) :
  dataminimizing w = Ok (u, w') -> gradient_steps w w'.
Proof.
  unfold dataminimizing. intros Ha.
  apply bind_inv in Ha as (o & w1 & Hg & Ha).
  apply get_self_inv in Hg as [-> ->].
  eapply for_each_invariant with (P := gradient_steps); [| |exact Ha].
  - apply gradient_steps_refl.
  - intros w0 w2 l i l' w3 Hw Hb.
    apply bind_inv in Hb as (angle & w4 & Hl & Hb).
    apply lift_inv in Hl as [_ ->].
    eapply update_image_gradient_steps; eassumption.
Qed.

Lemma error_measurement_eq (res_prev : option array) (i : nat) (w : world) :
  error_measurement res_prev i w =
  Ok (tt, {| self := measured res_prev (self w);
             calls := calls w ++ [Call_error_measurement res_prev i] |}).
Proof.
  unfold error_measurement, measured, mbind, M_bind, record_call, get_self.
  cbn [self calls]. destruct (Quameasopts (super (self w))); reflexivity.
Qed.

Lemma measured_config (res_prev : option array) (o : FISTA_obj) :
  config (measured res_prev o) = config o.
Proof. unfold measured. destruct (Quameasopts (super o)); reflexivity. Qed.

Lemma measured_res (res_prev : option array) (o : FISTA_obj) :
  res (super (measured res_prev o)) = res (super o).
Proof. unfold measured. destruct (Quameasopts (super o)); reflexivity. Qed.

(** *** One iteration of FISTA *)

Lemma FISTA_iteration_spec (Q : option (list string)) (lam t : R) (x : array)
    (i : nat) (w : world) (loc' : R * array) (w' : world) :
  FISTA_iteration Q lam (t, x) i w = Ok (loc', w') <->
  exists w1 x',
    dataminimizing w = Ok (tt, w1) /\
    lam <> 0 /\
    im3ddenoise (res (super (self w1))) (__numiter_tv__ (self w1)) (1 / lam)
      = Ok x' /\
    length x' = length x /\
    loc' = (t_next t, x') /\
    w' = FISTA_iterated Q lam t x i w w1 x'.
Proof.
  unfold FISTA_iteration. split.
  - intros Hi.
    apply bind_inv in Hi as (o & w0 & Hg & Hi).
    apply get_self_inv in Hg as [-> ->].
    apply bind_inv in Hi as ([] & w1 & Hmin & Hi).
    apply bind_inv in Hi as (o & w0 & Hg & Hi).
    apply get_self_inv in Hg as [-> ->].
    apply bind_inv in Hi as (s & w0 & Hdiv & Hi).
    apply lift_inv in Hdiv as [Hdiv ->].
    apply float_truediv_inv in Hdiv as (l & [= <-] & Hl & ->).
    apply bind_inv in Hi as (x' & w2 & Hden & Hi).
    unfold call_im3ddenoise in Hden.
    apply bind_inv in Hden as (u & w0 & Hrec & Hden).
    apply record_call_inv in Hrec. subst w0.
    apply lift_inv in Hden as [Hden ->].
    apply bind_inv in Hi as (d & w0 & Hd & Hi).
    apply lift_inv in Hd as [Hd ->].
    apply np_zip_inv in Hd as [Hlen ->].
    apply bind_inv in Hi as (r & w0 & Hr & Hi).
    apply lift_inv in Hr as [Hr ->].
    apply np_zip_inv in Hr as [_ ->].
    apply bind_inv in Hi as (u' & w0 & Hset & Hi).
    apply set_res_inv in Hset. subst w0.
    apply bind_inv in Hi as (u'' & w0 & Hem & Hi).
    rewrite error_measurement_eq in Hem. injection Hem as _ <-.
    injection Hi as <- <-.
    exists w1, x'. repeat split; try assumption.
    unfold FISTA_iterated, res_prev_of. cbn [self calls].
    rewrite <- app_assoc. reflexivity.
  - intros (w1 & x' & Hmin & Hl & Hden & Hlen & -> & ->).
    unfold mbind at 1, M_bind at 1. unfold get_self at 1.
    rewrite (bind_ok _ _ _ _ _ Hmin).
    unfold mbind at 1, M_bind at 1. unfold get_self at 1.
    unfold mbind at 1, M_bind at 1.
    rewrite (float_truediv_ok 1 lam (PFloat lam) eq_refl Hl).
    unfold lift at 1. unfold call_im3ddenoise.
    unfold mbind, M_bind, record_call. cbn [self calls].
    rewrite Hden. unfold lift at 1.
    unfold np_sub. rewrite (np_zip_ok Rminus x' x Hlen).
    unfold lift at 1. unfold np_add.
    rewrite np_zip_ok.
    2:{ unfold np_scale. rewrite length_map, length_zip_with. lia. }
    unfold lift at 1. unfold set_res. rewrite error_measurement_eq.
    unfold FISTA_iterated, res_prev_of, vadd, vsub. cbn [self calls].
    rewrite <- app_assoc. reflexivity.
Qed.

(** *** One iteration of ISTA *)

Lemma ISTA_iteration_spec (Q : option (list string)) (lam : R) (i : nat)
    (u u' : unit) (w w' : world) :
  ISTA_iteration Q lam u i w = Ok (u', w') <->
  exists w1 x',
    dataminimizing w = Ok (tt, w1) /\
    lam <> 0 /\
    im3ddenoise (res (super (self w1))) (PInt 20) (1 / lam) = Ok x' /\
    w' = ISTA_iterated Q lam i w w1 x'.
Proof.
  unfold ISTA_iteration. split.
  - intros Hi.
    apply bind_inv in Hi as (o & w0 & Hg & Hi).
    apply get_self_inv in Hg as [-> ->].
    apply bind_inv in Hi as ([] & w1 & Hmin & Hi).
    apply bind_inv in Hi as (o & w0 & Hg & Hi).
    apply get_self_inv in Hg as [-> ->].
    apply bind_inv in Hi as (s & w0 & Hdiv & Hi).
    apply lift_inv in Hdiv as [Hdiv ->].
    apply float_truediv_inv in Hdiv as (l & [= <-] & Hl & ->).
    apply bind_inv in Hi as (x' & w2 & Hden & Hi).
    unfold call_im3ddenoise in Hden.
    apply bind_inv in Hden as (u0 & w0 & Hrec & Hden).
    apply record_call_inv in Hrec. subst w0.
    apply lift_inv in Hden as [Hden ->].
    apply bind_inv in Hi as (u1 & w0 & Hset & Hi).
    apply set_res_inv in Hset. subst w0.
    rewrite error_measurement_eq in Hi. injection Hi as _ <-.
    exists w1, x'. repeat split; try assumption.
    unfold ISTA_iterated, res_prev_of. cbn [self calls].
    rewrite <- app_assoc. reflexivity.
  - intros (w1 & x' & Hmin & Hl & Hden & ->).
    unfold mbind at 1, M_bind at 1. unfold get_self at 1.
    rewrite (bind_ok _ _ _ _ _ Hmin).
    unfold mbind at 1, M_bind at 1. unfold get_self at 1.
    unfold mbind at 1, M_bind at 1.
    rewrite (float_truediv_ok 1 lam (PFloat lam) eq_refl Hl).
    unfold lift at 1. unfold call_im3ddenoise.
    unfold mbind, M_bind, record_call. cbn [self calls].
    rewrite Hden. unfold lift at 1.
    unfold set_res. rewrite error_measurement_eq.
    unfold ISTA_iterated, res_prev_of. cbn [self calls].
    rewrite <- app_assoc. destruct u'. reflexivity.
Qed.

(** *** Runs as sequences of iterations *)

Lemma seq_S_snoc (n : nat) : seq 0 (S n) = seq 0 n ++ [n].
Proof. rewrite seq_S. reflexivity. Qed.

Lemma FISTA_after_0 (w : world) (r : (R * array) * world) :
  FISTA_after 0 w = Ok r <->
  exists lam,
    float_mul (2 * __bm__ (self w)) (__lambda__ (self w)) = Ok lam /\
    r = ((__t__ (self w), res (super (self w))), w).
Proof.
  unfold FISTA_after, mbind, M_bind, get_self, lift, FISTA_loop. cbn [for_each].
  destruct (float_mul _ _) as [lam|e].
  - unfold mret, M_ret. split.
    + intros [= <-]. exists lam. split; reflexivity.
    + intros (_ & _ & ->). reflexivity.
  - split; [discriminate|]. intros (lam & Hl & _). discriminate.
Qed.

Lemma FISTA_after_S (n : nat) (w : world) (r : (R * array) * world) :
  FISTA_after (S n) w = Ok r <->
  exists lam loc wn,
    float_mul (2 * __bm__ (self w)) (__lambda__ (self w)) = Ok lam /\
    FISTA_after n w = Ok (loc, wn) /\
    FISTA_iteration (Quameasopts (super (self w))) lam loc n wn = Ok r.
Proof.
  unfold FISTA_after, FISTA_loop. rewrite seq_S_snoc.
  unfold mbind at 1 2 3 4, M_bind at 1 2 3 4, get_self, lift.
  destruct (float_mul _ _) as [lam|e].
  - rewrite for_each_app. cbn [for_each].
    unfold mbind at 1, M_bind at 1.
    destruct (for_each _ (seq 0 n) _ w) as [[loc wn]|e] eqn:E.
    + split.
      * intros Hr. exists lam, loc, wn. repeat split.
        apply bind_inv in Hr as (l' & w' & Hb & Hr).
        injection Hr as <-. exact Hb.
      * intros (lam' & loc' & wn' & [= <-] & [= <- <-] & Hr).
        unfold mbind, M_bind. rewrite Hr. destruct r as [l' w']. reflexivity.
    + split; [discriminate|].
      intros (lam' & loc' & wn' & _ & Hn & _). discriminate.
  - split; [discriminate|]. intros (lam' & _ & _ & Hl & _). discriminate.
Qed.

Lemma FISTA_run_main_iter_after (w w' : world) :
  FISTA_run_main_iter w = Ok (tt, w') <->
  exists loc, FISTA_after (Z.to_nat (niter (super (self w)))) w = Ok (loc, w').
Proof.
  unfold FISTA_run_main_iter, FISTA_after, range.
  unfold mbind at 1 2 3 4 5, M_bind at 1 2 3 4 5, get_self, lift.
  destruct (float_mul _ _) as [lam|e].
  - destruct (FISTA_loop _ _ _ _ w) as [[loc wn]|e].
    + split.
      * intros [= <-]. exists loc. reflexivity.
      * intros (loc' & [= <- <-]). reflexivity.
    + split; [discriminate|]. intros (loc' & Hl). discriminate.
  - split; [discriminate|]. intros (loc' & Hl). discriminate.
Qed.

Lemma FISTA_after_prefix (n m : nat) (w : world) (r : (R * array) * world) :
  (n <= m)%nat -> FISTA_after m w = Ok r ->
  exists r', FISTA_after n w = Ok r'.
Proof.
  intros Hnm. revert r. induction Hnm as [|m Hnm IH]; intros r Hr.
  - exists r. exact Hr.
  - apply FISTA_after_S in Hr as (lam & loc & wn & _ & Hn & _).
    eapply IH. exact Hn.
Qed.

Lemma ISTA_after_0 (w : world) (r : unit * world) :
  ISTA_after 0 w = Ok r <->
  exists lam,
    float_mul (2 * __bm__ (self w)) (lmbda (super (self w))) = Ok lam /\
    r = (tt, w).
Proof.
  unfold ISTA_after, mbind, M_bind, get_self, lift, ISTA_loop. cbn [for_each].
  destruct (float_mul _ _) as [lam|e].
  - unfold mret, M_ret. split.
    + intros [= <-]. exists lam. split; reflexivity.
    + intros (_ & _ & ->). reflexivity.
  - split; [discriminate|]. intros (lam & Hl & _). discriminate.
Qed.

Lemma ISTA_after_S (n : nat) (w : world) (r : unit * world) :
  ISTA_after (S n) w = Ok r <->
  exists lam wn,
    float_mul (2 * __bm__ (self w)) (lmbda (super (self w))) = Ok lam /\
    ISTA_after n w = Ok (tt, wn) /\
    ISTA_iteration (Quameasopts (super (self w))) lam tt n wn = Ok r.
Proof.
  unfold ISTA_after, ISTA_loop. rewrite seq_S_snoc.
  unfold mbind at 1 2 3 4, M_bind at 1 2 3 4, get_self, lift.
  destruct (float_mul _ _) as [lam|e].
  - rewrite for_each_app. cbn [for_each].
    unfold mbind at 1, M_bind at 1.
    destruct (for_each _ (seq 0 n) _ w) as [[[] wn]|e] eqn:E.
    + split.
      * intros Hr. exists lam, wn. repeat split.
        apply bind_inv in Hr as (l' & w' & Hb & Hr).
        injection Hr as <-. exact Hb.
      * intros (lam' & wn' & [= <-] & [= <-] & Hr).
        unfold mbind, M_bind. rewrite Hr. destruct r as [l' w']. reflexivity.
    + split; [discriminate|].
      intros (lam' & wn' & _ & Hn & _). discriminate.
  - split; [discriminate|]. intros (lam' & _ & Hl & _). discriminate.
Qed.

Lemma ISTA_run_main_iter_after (w : world) :
  ISTA_run_main_iter w = ISTA_after (Z.to_nat (niter (super (self w)))) w.
Proof. reflexivity. Qed.

Lemma ISTA_after_prefix (n m : nat) (w : world) (r : unit * world) :
  (n <= m)%nat -> ISTA_after m w = Ok r ->
  exists r', ISTA_after n w = Ok r'.
Proof.
  intros Hnm. revert r. induction Hnm as [|m Hnm IH]; intros r Hr.
  - exists r. exact Hr.
  - apply ISTA_after_S in Hr as (lam & wn & _ & Hn & _).
    eapply IH. exact Hn.
Qed.

(** *** What a run leaves alone *)

Lemma FISTA_iteration_config (Q : option (list string)) (lam : R)
    (loc loc' : R * array) (i : nat) (w w' : world) :
  FISTA_iteration Q lam loc i w = Ok (loc', w') ->
  config (self w') = config (self w).
Proof.
  destruct loc as [t x]. intros Hi.
  apply FISTA_iteration_spec in Hi as (w1 & x' & Hmin & _ & _ & _ & _ & ->).
  apply dataminimizing_gradient_steps in Hmin as (Hc & _).
  unfold FISTA_iterated. cbn [self]. rewrite measured_config. exact Hc.
Qed.

Lemma ISTA_iteration_config (Q : option (list string)) (lam : R)
    (u u' : unit) (i : nat) (w w' : world) :
  ISTA_iteration Q lam u i w = Ok (u', w') ->
  config (self w') = config (self w).
Proof.
  intros Hi.
  apply ISTA_iteration_spec in Hi as (w1 & x' & Hmin & _ & _ & ->).
  apply dataminimizing_gradient_steps in Hmin as (Hc & _).
  unfold ISTA_iterated. cbn [self]. rewrite measured_config. exact Hc.
Qed.

Lemma FISTA_after_config (n : nat) (w wn : world) (loc : R * array) :
  FISTA_after n w = Ok (loc, wn) -> config (self wn) = config (self w).
Proof.
  revert loc wn; induction n as [|n IH]; intros loc wn Hn.
  - apply FISTA_after_0 in Hn as (lam & _ & [= _ <-]). reflexivity.
  - apply FISTA_after_S in Hn as (lam & loc0 & w0 & _ & Hn & Hi).
    apply FISTA_iteration_config in Hi. rewrite Hi. eapply IH. exact Hn.
Qed.

Lemma ISTA_after_config (n : nat) (w wn : world) (u : unit) :
  ISTA_after n w = Ok (u, wn) -> config (self wn) = config (self w).
Proof.
  revert u wn; induction n as [|n IH]; intros u wn Hn.
  - apply ISTA_after_0 in Hn as (lam & _ & [= _ <-]). reflexivity.
  - apply ISTA_after_S in Hn as (lam & w0 & _ & Hn & Hi).
    apply ISTA_iteration_config in Hi. rewrite Hi. eapply IH. exact Hn.
Qed.

(** The projections of [config] that the statements below read. *)
Lemma config_fields (o o' : FISTA_obj) :
  config o' = config o ->
  __numiter_tv__ o' = __numiter_tv__ o /\
  __lambda__ o' = __lambda__ o /\
  __t__ o' = __t__ o /\
  __bm__ o' = __bm__ o /\
  niter (super o') = niter (super o) /\
  Quameasopts (super o') = Quameasopts (super o) /\
  lmbda (super o') = lmbda (super o).
Proof. unfold config. intros [= ]. repeat split; assumption. Qed.

(** *** Every iteration of a run *)

(** Iteration [i] of a successful run of [FISTA.run_main_iter]: it starts in
    the world and with the locals that the first [i] iterations leave, makes
    its gradient pass and one denoiser call, and ends as [FISTA_iterated]
    says. *)
Lemma FISTA_run_iteration (w wf : world) (i : nat) :
  FISTA_run_main_iter w = Ok (tt, wf) ->
  (Z.of_nat i < niter (super (self w)))%Z ->
  exists lam t x wi w1 x',
    as_number (__lambda__ (self w)) = Some lam /\
    2 * __bm__ (self w) * lam <> 0 /\
    FISTA_after i w = Ok ((t, x), wi) /\
    dataminimizing wi = Ok (tt, w1) /\
    im3ddenoise (res (super (self w1))) (__numiter_tv__ (self w))
                (1 / (2 * __bm__ (self w) * lam)) = Ok x' /\
    length x' = length x /\
    FISTA_after (S i) w =
      Ok ((t_next t, x'),
          FISTA_iterated (Quameasopts (super (self w)))
                         (2 * __bm__ (self w) * lam) t x i wi w1 x').
Proof.
  intros Hrun Hi.
  apply FISTA_run_main_iter_after in Hrun as (locf & Hrun).
  assert (Hle : (S i <= Z.to_nat (niter (super (self w))))%nat) by lia.
  destruct (FISTA_after_prefix _ _ w _ Hle Hrun) as [[loc' wi'] HS].
  pose proof HS as HS'.
  apply FISTA_after_S in HS' as (l & [t x] & wi & Hl & Hn & Hit).
  apply float_mul_inv in Hl as (lam & Hlam & ->).
  apply FISTA_iteration_spec in Hit
    as (w1 & x' & Hmin & Hne & Hden & Hlen & -> & ->).
  exists lam, t, x, wi, w1, x'.
  pose proof (FISTA_after_config _ _ _ _ Hn) as Hc.
  pose proof (dataminimizing_gradient_steps _ _ _ Hmin) as (Hc1 & _).
  rewrite Hc in Hc1. apply config_fields in Hc1 as (Hnum & _).
  rewrite Hnum in Hden.
  repeat split; assumption.
Qed.

(** Iteration [i] of a successful run of [ISTA.run_main_iter]. *)
Lemma ISTA_run_iteration (w wf : world) (i : nat) :
  ISTA_run_main_iter w = Ok (tt, wf) ->
  (Z.of_nat i < niter (super (self w)))%Z ->
  exists lam wi w1 x',
    as_number (lmbda (super (self w))) = Some lam /\
    2 * __bm__ (self w) * lam <> 0 /\
    ISTA_after i w = Ok (tt, wi) /\
    dataminimizing wi = Ok (tt, w1) /\
    im3ddenoise (res (super (self w1))) (PInt 20)
                (1 / (2 * __bm__ (self w) * lam)) = Ok x' /\
    ISTA_after (S i) w =
      Ok (tt, ISTA_iterated (Quameasopts (super (self w)))
                            (2 * __bm__ (self w) * lam) i wi w1 x').
Proof.
  intros Hrun Hi. rewrite ISTA_run_main_iter_after in Hrun.
  assert (Hle : (S i <= Z.to_nat (niter (super (self w))))%nat) by lia.
  destruct (ISTA_after_prefix _ _ w _ Hle Hrun) as [[[] wi'] HS].
  pose proof HS as HS'.
  apply ISTA_after_S in HS' as (l & wi & Hl & Hn & Hit).
  apply float_mul_inv in Hl as (lam & Hlam & ->).
  apply ISTA_iteration_spec in Hit as (w1 & x' & Hmin & Hne & Hden & ->).
  exists lam, wi, w1, x'. repeat split; assumption.
Qed.

(** *** C2: the extrapolation step *)

Lemma FISTA_iterated_res (Q : option (list string)) (lam t : R) (x : array)
    (i : nat) (w w1 : world) (x' : array) :
  res (super (self (FISTA_iterated Q lam t x i w w1 x'))) =
  vadd x' (np_scale ((t - 1) / t_next t) (vsub x' x)).
Proof. unfold FISTA_iterated. cbn [self]. rewrite measured_res. reflexivity. Qed.

(** C2. In iteration [i] of a successful FISTA run, let [(t_old, x_rec_old)] be
    the momentum coefficient and the denoised iterate with which the previous
    iteration ended (for the first iteration: the stored [__t__] and the
    initial estimate), and [x_rec_new] the output of this iteration's denoiser
    call.  The iteration ends with the momentum [t_new = t_next t_old] and with
    an estimate of the size of [x_rec_new] whose entry at every voxel is
    [a + ((t_old - 1) / t_new) * (a - b)], for the entries [a] of [x_rec_new]
    and [b] of [x_rec_old] at that voxel. *)
Theorem FISTA_extrapolates_from_previous (w wf : world) (i : nat) :
  FISTA_run_main_iter w = Ok (tt, wf) ->
  (Z.of_nat i < niter (super (self w)))%Z ->
  exists t_old x_rec_old wi w1 s t_new x_rec_new wi',
    FISTA_after i w = Ok ((t_old, x_rec_old), wi) /\
    dataminimizing wi = Ok (tt, w1) /\
    im3ddenoise (res (super (self w1))) (__numiter_tv__ (self w)) s
      = Ok x_rec_new /\
    FISTA_after (S i) w = Ok ((t_new, x_rec_new), wi') /\
    t_new = (1 + sqrt (1 + 4 * t_old ^ 2)) / 2 /\
    length x_rec_new = length x_rec_old /\
    length (res (super (self wi'))) = length x_rec_new /\
    (forall j a b,
        x_rec_new !! j = Some a -> x_rec_old !! j = Some b ->
        res (super (self wi')) !! j =
          Some (a + (t_old - 1) / t_new * (a - b))).
Proof.
  intros Hrun Hi.
  destruct (FISTA_run_iteration w wf i Hrun Hi)
    as (lam & t & x & wi & w1 & x' & _ & _ & Hn & Hmin & Hden & Hlen & HS).
  exists t, x, wi, w1, (1 / (2 * __bm__ (self w) * lam)), (t_next t), x'.
  eexists. split; [exact Hn|]. split; [exact Hmin|]. split; [exact Hden|].
  split; [exact HS|]. split; [reflexivity|]. split; [exact Hlen|].
  rewrite FISTA_iterated_res. split.
  - apply vadd_scaled_length. unfold vsub. rewrite length_zip_with. lia.
  - intros j a b Ha Hb. apply vadd_scaled_lookup; [exact Ha|].
    apply vsub_lookup; assumption.
Qed.

(** *** C3: the momentum sequence *)

Lemma t_next_gt (t : R) : t < t_next t.
Proof.
  unfold t_next.
  assert (Hpos : 0 <= 1 + 4 * t ^ 2) by nra.
  pose proof (sqrt_pos (1 + 4 * t ^ 2)) as Hs.
  pose proof (sqrt_sqrt _ Hpos) as Hss.
  set (s := sqrt (1 + 4 * t ^ 2)) in *.
  destruct (Rlt_le_dec (2 * t - 1) 0) as [Hneg|Hnn]; [lra|].
  assert (2 * t - 1 < s); [|lra].
  destruct (Rlt_le_dec (2 * t - 1) s) as [|Hle]; [assumption|exfalso].
  nra.
Qed.

Lemma t_next_ge_1 (t : R) : 1 <= t_next t.
Proof.
  unfold t_next.
  assert (Hs : sqrt 1 <= sqrt (1 + 4 * t ^ 2)) by (apply sqrt_le_1_alt; nra).
  rewrite sqrt_1 in Hs. lra.
Qed.

Lemma FISTA_after_momentum (n : nat) (w wn : world) (t : R) (x : array) :
  FISTA_after n w = Ok ((t, x), wn) ->
  t = momentum (__t__ (self w)) n.
Proof.
  revert t x wn; induction n as [|n IH]; intros t x wn Hn.
  - apply FISTA_after_0 in Hn as (lam & _ & [= -> _ _]). reflexivity.
  - apply FISTA_after_S in Hn as (lam & [t0 x0] & w0 & _ & Hn & Hit).
    apply FISTA_iteration_spec in Hit as (_ & x' & _ & _ & _ & _ & [= -> _] & _).
    cbn [momentum]. f_equal. eapply IH. exact Hn.
Qed.

(** C3. On an instance built by [FISTA.__init__], the momentum coefficient of
    a run is [1] before the first iteration, and each iteration takes it from
    [t] to [(1 + sqrt (1 + 4 * t^2)) / 2], which is strictly greater than
    [t]. *)
Theorem FISTA_momentum_sequence
    (p : rows) (g : geometry) (a : list angle_t) (nit : Z)
    (kwargs : gmap string pyval) (o : FISTA_obj) (cs : list event) :
  FISTA___init__ p g a nit kwargs = Ok o ->
  let w := {| self := o; calls := cs |} in
  (forall t x w0, FISTA_after 0 w = Ok ((t, x), w0) -> t = 1) /\
  (forall i t x wi t' x' wi',
      FISTA_after i w = Ok ((t, x), wi) ->
      FISTA_after (S i) w = Ok ((t', x'), wi') ->
      t' = (1 + sqrt (1 + 4 * t ^ 2)) / 2 /\ t < t') /\
  (forall wf i,
      FISTA_run_main_iter w = Ok (tt, wf) ->
      (Z.of_nat i < niter (super (self w)))%Z ->
      exists t x wi t' x' wi',
        FISTA_after i w = Ok ((t, x), wi) /\
        FISTA_after (S i) w = Ok ((t', x'), wi')).
Proof.
  intros Hinit w.
  assert (Ht : __t__ o = 1).
  { unfold FISTA___init__ in Hinit.
    destruct (IterativeReconAlg___init__ _ _ _ _ _) as [b|e]; [|discriminate].
    cbn in Hinit.
    destruct (float_truediv 1 _) as [bm|e]; [|discriminate].
    injection Hinit as <-. reflexivity. }
  split; [|split].
  - intros t x w0 Hz%FISTA_after_momentum. cbn in Hz. congruence.
  - intros i t x wi t' x' wi' Hi HS.
    apply FISTA_after_momentum in Hi, HS. cbn [momentum] in HS.
    rewrite <- Hi in HS. subst t'. split; [reflexivity|apply t_next_gt].
  - intros wf i Hrun Hi.
    destruct (FISTA_run_iteration w wf i Hrun Hi)
      as (lam & t & x & wi & w1 & x' & _ & _ & Hn & _ & _ & _ & HS).
    exists t, x, wi, (t_next t), x'. eexists. split; eassumption.
Qed.

(** *** C4, C5, C6: the calls of an iteration *)

(** C4, with the strength argument that the code passes.  In iteration [i]
    of a successful FISTA run, the calls are those of the gradient pass, then
    one call of the denoiser on the estimate the gradient pass left, with the
    configured [tviter] as inner-iteration budget and with the reciprocal
    [1 / lambdaForTv] as strength argument, where
    [lambdaForTv = 2 * bm * lambda] for the configured [lambda], then the
    quality tracker. *)
Theorem FISTA_denoiser_call (w wf : world) (i : nat) :
  FISTA_run_main_iter w = Ok (tt, wf) ->
  (Z.of_nat i < niter (super (self w)))%Z ->
  exists lambda loc wi w1 loc' wi' res_prev,
    as_number (__lambda__ (self w)) = Some lambda /\
    FISTA_after i w = Ok (loc, wi) /\
    dataminimizing wi = Ok (tt, w1) /\
    gradient_steps wi w1 /\
    FISTA_after (S i) w = Ok (loc', wi') /\
    calls wi' =
      calls w1 ++
      [Call_im3ddenoise (res (super (self w1))) (__numiter_tv__ (self w))
                        (1 / (2 * __bm__ (self w) * lambda));
       Call_error_measurement res_prev i].
Proof.
  intros Hrun Hi.
  destruct (FISTA_run_iteration w wf i Hrun Hi)
    as (lam & t & x & wi & w1 & x' & Hlam & _ & Hn & Hmin & _ & _ & HS).
  exists lam, (t, x), wi, w1. do 3 eexists.
  split; [exact Hlam|]. split; [exact Hn|]. split; [exact Hmin|].
  split; [exact (dataminimizing_gradient_steps _ _ _ Hmin)|].
  split; [exact HS|].
  unfold FISTA_iterated. cbn [calls].
  pose proof (FISTA_after_config _ _ _ _ Hn) as Hc.
  pose proof (dataminimizing_gradient_steps _ _ _ Hmin) as (Hc1 & _).
  rewrite Hc in Hc1. apply config_fields in Hc1 as (-> & _). reflexivity.
Qed.

(** C5, with the strength argument that the code passes.  In iteration [i]
    of a successful ISTA run on an instance whose configured [lambda] is the
    value of the attribute [lmbda] (the default [0.1]), the calls are those of
    the gradient pass, directly followed by one call of the denoiser on the
    estimate the gradient pass left, with inner-iteration count [20] and
    strength argument [1 / lambdaForTv], [lambdaForTv = 2 * bm * lambda], then
    the quality tracker; the estimate the iteration ends with, and the next
    one starts from, is the denoiser's output itself. *)
Theorem ISTA_iteration_denoises (w wf : world) (i : nat) (lambda : R) :
  as_number (__lambda__ (self w)) = Some lambda ->
  as_number (lmbda (super (self w))) = Some lambda ->
  ISTA_run_main_iter w = Ok (tt, wf) ->
  (Z.of_nat i < niter (super (self w)))%Z ->
  exists wi w1 x' wi' res_prev,
    ISTA_after i w = Ok (tt, wi) /\
    dataminimizing wi = Ok (tt, w1) /\
    gradient_steps wi w1 /\
    im3ddenoise (res (super (self w1))) (PInt 20)
                (1 / (2 * __bm__ (self w) * lambda)) = Ok x' /\
    ISTA_after (S i) w = Ok (tt, wi') /\
    calls wi' =
      calls w1 ++
      [Call_im3ddenoise (res (super (self w1))) (PInt 20)
                        (1 / (2 * __bm__ (self w) * lambda));
       Call_error_measurement res_prev i] /\
    res (super (self wi')) = x'.
Proof.
  intros _ Hlmbda Hrun Hi.
  destruct (ISTA_run_iteration w wf i Hrun Hi)
    as (lam & wi & w1 & x' & Hlam & _ & Hn & Hmin & Hden & HS).
  rewrite Hlmbda in Hlam. injection Hlam as <-.
  exists wi, w1, x'. do 2 eexists.
  split; [exact Hn|]. split; [exact Hmin|].
  split; [exact (dataminimizing_gradient_steps _ _ _ Hmin)|].
  split; [exact Hden|]. split; [exact HS|].
  split; [reflexivity|].
  unfold ISTA_iterated. cbn [self]. rewrite measured_res. reflexivity.
Qed.

(** C6, for every iteration alike.  In every iteration [i] of a successful
    run of FISTA and of ISTA, the first one included, the quality tracker is
    called once, at the end, and receives as previous estimate: nothing when
    [Quameasopts] is [None], and otherwise the estimate the iteration started
    from. *)
Theorem error_measurement_receives_previous (w wf : world) (i : nat) :
  (Z.of_nat i < niter (super (self w)))%Z ->
  (FISTA_run_main_iter w = Ok (tt, wf) ->
   exists loc wi loc' wi' evs img iter s,
     FISTA_after i w = Ok (loc, wi) /\
     FISTA_after (S i) w = Ok (loc', wi') /\
     Forall is_update_image evs /\
     calls wi' =
       calls wi ++ evs ++
       [Call_im3ddenoise img iter s;
        Call_error_measurement
          match Quameasopts (super (self w)) with
          | None => None
          | Some _ => Some (res (super (self wi)))
          end i]) /\
  (ISTA_run_main_iter w = Ok (tt, wf) ->
   exists wi wi' evs img iter s,
     ISTA_after i w = Ok (tt, wi) /\
     ISTA_after (S i) w = Ok (tt, wi') /\
     Forall is_update_image evs /\
     calls wi' =
       calls wi ++ evs ++
       [Call_im3ddenoise img iter s;
        Call_error_measurement
          match Quameasopts (super (self w)) with
          | None => None
          | Some _ => Some (res (super (self wi)))
          end i]).
Proof.
  intros Hi. split; intros Hrun.
  - destruct (FISTA_run_iteration w wf i Hrun Hi)
      as (lam & t & x & wi & w1 & x' & _ & _ & Hn & Hmin & _ & _ & HS).
    apply dataminimizing_gradient_steps in Hmin
      as (_ & _ & evs & Hcalls & Hevs).
    exists (t, x), wi. do 2 eexists. exists evs. do 3 eexists.
    split; [exact Hn|]. split; [exact HS|]. split; [exact Hevs|].
    unfold FISTA_iterated. cbn [calls]. rewrite Hcalls, <- app_assoc.
    reflexivity.
  - destruct (ISTA_run_iteration w wf i Hrun Hi)
      as (lam & wi & w1 & x' & _ & _ & Hn & Hmin & _ & HS).
    apply dataminimizing_gradient_steps in Hmin
      as (_ & _ & evs & Hcalls & Hevs).
    exists wi. eexists. exists evs. do 3 eexists.
    split; [exact Hn|]. split; [exact HS|]. split; [exact Hevs|].
    unfold ISTA_iterated. cbn [calls]. rewrite Hcalls, <- app_assoc.
    reflexivity.
Qed.

(** *** C7: no iteration *)

(** C7. With [niter = 0] a run of FISTA or of ISTA that returns leaves the
    whole world as it was: the estimate is the initial one and no gradient
    step, denoiser call or quality measurement is recorded; and the run does
    return as soon as the regularisation strength it reads is a number. *)
Theorem niter_zero_is_identity (w : world) :
  niter (super (self w)) = 0%Z ->
  (forall wf, FISTA_run_main_iter w = Ok (tt, wf) -> wf = w) /\
  (forall wf, ISTA_run_main_iter w = Ok (tt, wf) -> wf = w) /\
  (is_Some (as_number (__lambda__ (self w))) ->
   FISTA_run_main_iter w = Ok (tt, w)) /\
  (is_Some (as_number (lmbda (super (self w)))) ->
   ISTA_run_main_iter w = Ok (tt, w)).
Proof.
  intros Hn. repeat split.
  - intros wf Hrun. apply FISTA_run_main_iter_after in Hrun as (loc & Hrun).
    rewrite Hn in Hrun. cbn [Z.to_nat] in Hrun.
    apply FISTA_after_0 in Hrun as (lam & _ & [= _ ->]). reflexivity.
  - intros wf Hrun. rewrite ISTA_run_main_iter_after, Hn in Hrun.
    cbn [Z.to_nat] in Hrun.
    apply ISTA_after_0 in Hrun as (lam & _ & [= ->]). reflexivity.
  - intros [lam Hlam]. apply FISTA_run_main_iter_after. eexists.
    rewrite Hn. cbn [Z.to_nat]. apply FISTA_after_0.
    eexists. split; [apply float_mul_ok; exact Hlam|reflexivity].
  - intros [lam Hlam]. rewrite ISTA_run_main_iter_after, Hn.
    cbn [Z.to_nat]. apply ISTA_after_0.
    eexists. split; [apply float_mul_ok; exact Hlam|reflexivity].
Qed.

(** *** C8, C10: construction *)

Lemma FISTA_kwargs_lookup_other (a : list angle_t) (kwargs : gmap string pyval)
    (k : string) :
  k <> "blocksize" -> k <> "V" -> k <> "W" ->
  FISTA_kwargs a kwargs !! k = kwargs !! k.
Proof.
  intros Hb HV HW. unfold FISTA_kwargs.
  rewrite !lookup_insert_ne by congruence. reflexivity.
Qed.

Lemma FISTA___init___inv (p : rows) (g : geometry) (a : list angle_t) (nit : Z)
    (kwargs : gmap string pyval) (o : FISTA_obj) :
  FISTA___init__ p g a nit kwargs = Ok o ->
  exists b L,
    IterativeReconAlg___init__ p g a nit (FISTA_kwargs a kwargs) = Ok b /\
    as_number (default (PFloat 2e4) (kwargs !! "hyper")) = Some L /\
    L <> 0 /\
    o = {| super := with_lmbda (PFloat 0.1) b;
           __L__ := default (PFloat 2e4) (kwargs !! "hyper");
           __numiter_tv__ := default (PInt 20) (kwargs !! "tviter");
           __lambda__ := default (PFloat 0.1) (kwargs !! "lambda");
           __t__ := 1;
           __bm__ := 1 / L |}.
Proof.
  unfold FISTA___init__. intros Hinit.
  destruct (IterativeReconAlg___init__ _ _ _ _ _) as [b|e]; [|discriminate].
  cbn [mbind result_bind] in Hinit.
  rewrite !FISTA_kwargs_lookup_other in Hinit by discriminate.
  destruct (float_truediv 1 _) as [bm|e] eqn:Ebm; [|discriminate].
  injection Hinit as <-.
  exists b.
  destruct (kwargs !! "hyper") as [v|]; cbn [default] in *;
    apply float_truediv_inv in Ebm as (L & HL & Hne & ->);
    exists L; repeat split; try assumption;
    destruct (kwargs !! "tviter"), (kwargs !! "lambda"); reflexivity.
Qed.


(** *** C9: the stored momentum *)

(** C9. A run of [FISTA.run_main_iter] leaves the attribute [__t__] as it
    found it, so it is still [1] after a run on an instance where it was [1];
    and the momentum of a further run is again [__t__], then
    [t_next __t__], ...: the recursion starts over. *)
Theorem FISTA_run_keeps_stored_t (w wf : world) :
  FISTA_run_main_iter w = Ok (tt, wf) ->
  __t__ (self wf) = __t__ (self w) /\
  (__t__ (self w) = 1 -> __t__ (self wf) = 1) /\
  (forall n t x wn,
      FISTA_after n wf = Ok ((t, x), wn) ->
      t = momentum (__t__ (self w)) n).
Proof.
  intros Hrun.
  apply FISTA_run_main_iter_after in Hrun as (loc & Hrun).
  apply FISTA_after_config, config_fields in Hrun as (_ & _ & Ht & _).
  split; [exact Ht|]. split; [congruence|].
  intros n t x wn Hn. rewrite <- Ht. eapply FISTA_after_momentum. exact Hn.
Qed.

(** *** C10: ISTA is constructed by FISTA's constructor *)

Lemma FISTA_kwargs_overrides (a : list angle_t) (kwargs : gmap string pyval)
    (k : string) (v : pyval) :
  k = "blocksize" \/ k = "W" \/ k = "V" ->
  FISTA_kwargs a (<[k := v]> kwargs) = FISTA_kwargs a kwargs.
Proof.
  unfold FISTA_kwargs. intros [-> | [-> | ->]].
  - rewrite (insert_insert_ne _ "W" "blocksize") by discriminate.
    rewrite (insert_insert_ne _ "V" "blocksize") by discriminate.
    rewrite insert_insert_eq. reflexivity.
  - rewrite insert_insert_eq. reflexivity.
  - rewrite (insert_insert_ne _ "W" "V") by discriminate.
    rewrite insert_insert_eq. reflexivity.
Qed.

(** C10. The class body of [ISTA] has no entry [__init__] (its method is
    named [__int__]), so [__init__] resolves on [ISTA] to [FISTA.__init__]:
    for the same arguments, constructing an [ISTA] gives what constructing a
    [FISTA] gives.  The base constructor receives the keywords with
    [blocksize] set to the number of angles and [W], [V] set to [None],
    whatever the caller supplied under these names. *)
Theorem ISTA_is_constructed_by_FISTA
    (p : rows) (g : geometry) (a : list angle_t) (nit : Z)
    (kwargs : gmap string pyval) :
  class_dict ISTA !! "__init__" = None /\
  resolve ISTA "__init__" = Some def_FISTA___init__ /\
  construct ISTA p g a nit kwargs = construct FISTA p g a nit kwargs /\
  construct ISTA p g a nit kwargs = FISTA___init__ p g a nit kwargs /\
  (forall o, construct ISTA p g a nit kwargs = Ok o ->
     exists b,
       IterativeReconAlg___init__ p g a nit (FISTA_kwargs a kwargs) = Ok b /\
       super o = with_lmbda (PFloat 0.1) b) /\
  FISTA_kwargs a kwargs !! "blocksize" = Some (PInt (Z.of_nat (length a))) /\
  FISTA_kwargs a kwargs !! "W" = Some PNone /\
  FISTA_kwargs a kwargs !! "V" = Some PNone /\
  (forall k v, k = "blocksize" \/ k = "W" \/ k = "V" ->
     construct ISTA p g a nit (<[k := v]> kwargs) =
     construct ISTA p g a nit kwargs).
Proof.
  split; [reflexivity|]. split; [reflexivity|].
  split; [reflexivity|]. split; [reflexivity|].
  split.
  { intros o Hc. change (FISTA___init__ p g a nit kwargs = Ok o) in Hc.
    apply FISTA___init___inv in Hc as (b & L & Hb & _ & _ & ->).
    exists b. split; [exact Hb|reflexivity]. }
  unfold FISTA_kwargs at 1 2 3.
  split; [apply lookup_insert_eq|].
  split; [rewrite !lookup_insert_ne by discriminate; apply lookup_insert_eq|].
  split; [rewrite lookup_insert_ne by discriminate; apply lookup_insert_eq|].
  intros k v Hk.
  change (FISTA___init__ p g a nit (<[k := v]> kwargs) =
          FISTA___init__ p g a nit kwargs).
  unfold FISTA___init__. rewrite (FISTA_kwargs_overrides a kwargs k v Hk).
  reflexivity.
Qed.

(** ** Further properties of the momentum recursion (line 189) *)

Lemma t_next_sqrt (t : R) :
  0 <= sqrt (1 + 4 * t ^ 2) /\
  sqrt (1 + 4 * t ^ 2) * sqrt (1 + 4 * t ^ 2) = 1 + 4 * t ^ 2.
Proof.
  split; [apply sqrt_pos|]. apply sqrt_sqrt. nra.
Qed.

Lemma t_next_identity (t : R) : t_next t * t_next t - t_next t = t * t.
Proof.
  unfold t_next. destruct (t_next_sqrt t) as [_ Hs].
  set (s := sqrt (1 + 4 * t ^ 2)) in *. nra.
Qed.

Lemma t_next_step_bounds (t : R) :
  0 <= t -> t + 1 / 2 <= t_next t <= t + 1.
Proof.
  intros Ht. unfold t_next. destruct (t_next_sqrt t) as [Hs0 Hs].
  set (s := sqrt (1 + 4 * t ^ 2)) in *.
  assert (2 * t <= s) by nra.
  assert (s <= 1 + 2 * t) by nra.
  lra.
Qed.

Lemma momentum_bounds (n : nat) :
  (INR n + 2) / 2 <= momentum 1 n <= INR n + 1.
Proof.
  induction n as [|n IH].
  - cbn. lra.
  - rewrite S_INR. cbn [momentum].
    assert (Hpos : 0 <= momentum 1 n) by (pose proof (pos_INR n); lra).
    pose proof (t_next_step_bounds _ Hpos). lra.
Qed.

(** X1. Each iteration of a FISTA run takes the momentum from [t_old] to a
    [t_new] with [t_new^2 - t_new = t_old^2], the relation that defines the
    accelerated scheme, whatever the momentum the run was entered with. *)
Theorem FISTA_momentum_identity (w : world) (i : nat) (t t' : R)
    (x x' : array) (wi wi' : world) :
  FISTA_after i w = Ok ((t, x), wi) ->
  FISTA_after (S i) w = Ok ((t', x'), wi') ->
  t' * t' - t' = t * t.
Proof.
  intros Hi HS. apply FISTA_after_momentum in Hi, HS. cbn [momentum] in HS.
  rewrite <- Hi in HS. subst t'. apply t_next_identity.
Qed.


(** X3. In a run entered with the stored momentum [1], the divisor [t] of
    line 190 is at least [1], and the extrapolation weight
    [(t_old - 1) / t] of every iteration lies in [[0, 1)]; it is [0] in the
    first iteration. *)
Theorem FISTA_extrapolation_weight (w wi wi' : world) (i : nat) (t t' : R)
    (x x' : array) :
  __t__ (self w) = 1 ->
  FISTA_after i w = Ok ((t, x), wi) ->
  FISTA_after (S i) w = Ok ((t', x'), wi') ->
  1 <= t' /\ 0 <= (t - 1) / t' < 1 /\ (i = 0%nat -> (t - 1) / t' = 0).
Proof.
  intros H1 Hi HS. apply FISTA_after_momentum in Hi, HS. cbn [momentum] in HS.
  rewrite <- Hi in HS. rewrite H1 in Hi. subst t'.
  pose proof (t_next_ge_1 t) as Hge. pose proof (t_next_gt t) as Hgt.
  assert (Ht : 1 <= t) by (subst t; pose proof (momentum_bounds i);
                           pose proof (pos_INR i); lra).
  split; [exact Hge|]. split.
  - split.
    + apply Rmult_le_pos; [lra|]. apply Rlt_le, Rinv_0_lt_compat. lra.
    + apply (Rmult_lt_reg_r (t_next t)); [lra|].
      unfold Rdiv. rewrite Rmult_assoc, Rinv_l by lra. lra.
  - intros ->. cbn in Hi. subst t. unfold Rdiv. rewrite Rminus_diag.
    apply Rmult_0_l.
Qed.

(** ** Steps that change nothing *)

Lemma vsub_diag_zero (a : array) : all_zero (vsub a a).
Proof.
  unfold all_zero, vsub. induction a as [|v a IH]; cbn; constructor.
  - apply Rminus_diag.
  - exact IH.
Qed.

Lemma vsub2_diag_zero (p : rows) : all_zero_rows (vsub2 p p).
Proof.
  unfold all_zero_rows, vsub2. induction p as [|r p IH]; cbn; constructor.
  - apply vsub_diag_zero.
  - exact IH.
Qed.

Lemma vadd_scaled_zero (c : R) (a z : array) :
  all_zero z -> length z = length a -> vadd a (np_scale c z) = a.
Proof.
  unfold all_zero, vadd, np_scale. intros Hz. revert a.
  induction Hz as [|v z Hv _ IH]; intros [|u a] Hlen; cbn in *;
    try discriminate; [reflexivity|].
  subst v. rewrite Rmult_0_r, Rplus_0_r. f_equal. apply IH. lia.
Qed.

Lemma vadd_zero_scaled (a d : array) :
  length a = length d -> vadd a (np_scale 0 d) = a.
Proof.
  unfold vadd, np_scale. revert d.
  induction a as [|u a IH]; intros [|v d] Hlen; cbn in *;
    try discriminate; [reflexivity|].
  rewrite Rmult_0_l, Rplus_0_r. f_equal. apply IH. lia.
Qed.

(** X4. When the forward projection of the estimate reproduces the measured
    rows of the block, and the back-projection maps a zero residual to a zero
    volume, a gradient step that returns leaves the estimate as it was. *)
Theorem update_image_fixes_consistent_estimate
    (g : geometry) (angle : list angle_t) (iteration : nat) (w w' : world)
    (idx : list nat) (p : rows) :
  angle_index (super (self w)) !! iteration = Some idx ->
  take_rows (proj (super (self w))) idx = Ok p ->
  Ax (res (super (self w))) g angle "interpolated" = Ok p ->
  (forall z bp, all_zero_rows z -> Atb z g angle "matched" = Ok bp ->
                all_zero bp) ->
  update_image g angle iteration w = Ok (tt, w') ->
  res (super (self w')) = res (super (self w)).
Proof.
  intros Hidx Hp Hfp Hlin Hu.
  apply update_image_inv in Hu
    as (idx' & p' & fp & bp & Hidx' & Hp' & Hfp' & _ & Hbp & Hlen & ->).
  rewrite Hidx in Hidx'. injection Hidx' as <-.
  rewrite Hp in Hp'. injection Hp' as <-.
  rewrite Hfp in Hfp'. injection Hfp' as <-.
  unfold after_update. cbn [self super res with_res].
  apply vadd_scaled_zero; [|exact Hlen].
  eapply Hlin; [apply vsub2_diag_zero|exact Hbp].
Qed.

Lemma dataminimizing_zero_backprojection (w w1 : world) (u : unit) :
  (forall d g a m bp, Atb d g a m = Ok bp -> all_zero bp) ->
  dataminimizing w = Ok (u, w1) ->
  res (super (self w1)) = res (super (self w)).
Proof.
  intros HAtb Hmin. unfold dataminimizing in Hmin.
  apply bind_inv in Hmin as (o & w0 & Hg & Hmin).
  apply get_self_inv in Hg as [-> ->].
  eapply for_each_invariant
    with (P := fun v v' => res (super (self v')) = res (super (self v)));
    [| |exact Hmin].
  - reflexivity.
  - intros v0 v l j l' v' Hv Hb.
    apply bind_inv in Hb as (angle & v1 & Hl & Hb).
    apply lift_inv in Hl as [_ ->].
    apply update_image_inv in Hb
      as (idx & p & fp & bp & _ & _ & _ & _ & Hbp & Hlen & ->).
    unfold after_update. cbn [self super res with_res]. rewrite <- Hv.
    apply vadd_scaled_zero; [|exact Hlen]. eapply HAtb. exact Hbp.
Qed.

(** X5. With a back-projection that only returns zero volumes and a denoiser
    that returns its input, the estimate is the initial one after any number
    of iterations of FISTA and of ISTA, and so is FISTA's denoised iterate. *)
Theorem zero_backprojection_keeps_estimate (w : world) :
  (forall d g a m bp, Atb d g a m = Ok bp -> all_zero bp) ->
  (forall img iter s x, im3ddenoise img iter s = Ok x -> x = img) ->
  (forall n t x wn,
      FISTA_after n w = Ok ((t, x), wn) ->
      res (super (self wn)) = res (super (self w)) /\
      x = res (super (self w))) /\
  (forall n wn,
      ISTA_after n w = Ok (tt, wn) ->
      res (super (self wn)) = res (super (self w))) /\
  (forall wf, FISTA_run_main_iter w = Ok (tt, wf) ->
              res (super (self wf)) = res (super (self w))) /\
  (forall wf, ISTA_run_main_iter w = Ok (tt, wf) ->
              res (super (self wf)) = res (super (self w))).
Proof.
  intros HAtb Hden.
  assert (HF : forall n t x wn,
             FISTA_after n w = Ok ((t, x), wn) ->
             res (super (self wn)) = res (super (self w)) /\
             x = res (super (self w))).
  { induction n as [|n IH]; intros t x wn Hn.
    - apply FISTA_after_0 in Hn as (lam & _ & [= _ -> ->]).
      split; reflexivity.
    - apply FISTA_after_S in Hn as (lam & [t0 x0] & w0 & _ & Hn & Hit).
      destruct (IH _ _ _ Hn) as [Hres ->].
      apply FISTA_iteration_spec in Hit
        as (w1 & x' & Hmin & _ & Hx' & Hlen & [= _ ->] & ->).
      apply (dataminimizing_zero_backprojection _ _ _ HAtb) in Hmin.
      apply Hden in Hx'. rewrite Hmin, Hres in Hx'. subst x'.
      split; [|reflexivity].
      rewrite FISTA_iterated_res.
      apply vadd_scaled_zero; [apply vsub_diag_zero|].
      unfold vsub. rewrite length_zip_with. lia. }
  assert (HI : forall n wn,
             ISTA_after n w = Ok (tt, wn) ->
             res (super (self wn)) = res (super (self w))).
  { induction n as [|n IH]; intros wn Hn.
    - apply ISTA_after_0 in Hn as (lam & _ & [= ->]). reflexivity.
    - apply ISTA_after_S in Hn as (lam & w0 & _ & Hn & Hit).
      specialize (IH _ Hn).
      apply ISTA_iteration_spec in Hit as (w1 & x' & Hmin & _ & Hx' & ->).
      apply (dataminimizing_zero_backprojection _ _ _ HAtb) in Hmin.
      apply Hden in Hx'. unfold ISTA_iterated. cbn [self].
      rewrite measured_res. cbn [super res with_res]. congruence. }
  split; [exact HF|]. split; [exact HI|]. split.
  - intros wf Hrun. apply FISTA_run_main_iter_after in Hrun as ([t x] & Hrun).
    apply (HF _ _ _ _ Hrun).
  - intros wf Hrun. rewrite ISTA_run_main_iter_after in Hrun.
    apply (HI _ _ Hrun).
Qed.

(** X6. On an instance with the stored momentum [1], the default budget
    [tviter = 20] and a [lambda] equal to the attribute [lmbda], a first
    iteration of FISTA that returns is a first iteration of ISTA: the
    extrapolation weight is [0], and both leave the same estimate, quality
    trace and call log. *)
Theorem FISTA_first_iteration_is_ISTA (w wF : world) (loc : R * array) :
  __t__ (self w) = 1 ->
  __numiter_tv__ (self w) = PInt 20 ->
  as_number (__lambda__ (self w)) = as_number (lmbda (super (self w))) ->
  FISTA_after 1 w = Ok (loc, wF) ->
  ISTA_after 1 w = Ok (tt, wF).
Proof.
  intros H1 H20 Hlam HF.
  apply FISTA_after_S in HF as (lam & [t0 x0] & w0 & Hl & H0' & Hit).
  apply FISTA_after_0 in H0' as (_ & _ & [= -> -> ->]).
  apply FISTA_iteration_spec in Hit
    as (w1 & x' & Hmin & Hne & Hx' & Hlen & _ & ->).
  assert (Hl' : float_mul (2 * __bm__ (self w)) (lmbda (super (self w))) = Ok lam).
  { unfold float_mul in *. rewrite <- Hlam. exact Hl. }
  pose proof (dataminimizing_gradient_steps _ _ _ Hmin) as (Hc & _).
  apply config_fields in Hc as (Hnum & _). rewrite Hnum, H20 in Hx'.
  apply ISTA_after_S. exists lam, w. split; [exact Hl'|]. split.
  - apply ISTA_after_0. exists lam. split; [exact Hl'|reflexivity].
  - apply ISTA_iteration_spec. exists w1, x'.
    split; [exact Hmin|]. split; [exact Hne|]. split; [exact Hx'|].
    unfold FISTA_iterated, ISTA_iterated. rewrite Hnum, H20, H1.
    replace ((1 - 1) / t_next 1) with 0
      by (unfold Rdiv; rewrite Rminus_diag, Rmult_0_l; reflexivity).
    rewrite vadd_zero_scaled; [reflexivity|].
    unfold vsub. rewrite length_zip_with. lia.
Qed.

(** ** The call log of a whole run *)

Lemma gradient_steps_no_other_call (evs : list event) :
  Forall is_update_image evs ->
  error_measurement_indices evs = [] /\ denoise_calls evs = [].
Proof.
  unfold error_measurement_indices, denoise_calls.
  induction 1 as [|e evs He _ [IH1 IH2]]; [split; reflexivity|].
  destruct e; try contradiction. cbn. split; assumption.
Qed.

(** What one iteration adds to the log, seen through the two filters. *)
Lemma iteration_calls (w w1 : world) (img : array) (iter : pyval) (s : R)
    (rp : option array) (i : nat) :
  gradient_steps w w1 ->
  exists evs,
    calls w1 ++ [Call_im3ddenoise img iter s; Call_error_measurement rp i] =
      calls w ++ evs /\
    error_measurement_indices evs = [i] /\
    denoise_calls evs = [(img, iter, s)].
Proof.
  intros (_ & _ & evs & Hcalls & Hevs).
  destruct (gradient_steps_no_other_call evs Hevs) as [He Hd].
  exists (evs ++ [Call_im3ddenoise img iter s; Call_error_measurement rp i]).
  split; [rewrite Hcalls, <- app_assoc; reflexivity|].
  unfold error_measurement_indices, denoise_calls in *.
  rewrite !omap_app, He, Hd. split; reflexivity.
Qed.

Lemma FISTA_after_calls (n : nat) (w wn : world) (loc : R * array) :
  FISTA_after n w = Ok (loc, wn) ->
  exists evs,
    calls wn = calls w ++ evs /\
    error_measurement_indices evs = seq 0 n /\
    length (denoise_calls evs) = n.
Proof.
  revert loc wn; induction n as [|n IH]; intros loc wn Hn.
  - apply FISTA_after_0 in Hn as (lam & _ & [= _ <-]).
    exists []. rewrite app_nil_r. repeat split.
  - apply FISTA_after_S in Hn as (lam & [t0 x0] & w0 & _ & Hn & Hit).
    destruct (IH _ _ Hn) as (evs & Hcalls & Hidx & Hlen).
    apply FISTA_iteration_spec in Hit as (w1 & x' & Hmin & _ & _ & _ & _ & ->).
    apply dataminimizing_gradient_steps in Hmin.
    destruct (iteration_calls w0 w1 (res (super (self w1)))
                (__numiter_tv__ (self w1)) (1 / lam)
                (res_prev_of (Quameasopts (super (self w))) w0) n Hmin)
      as (evs' & Hcalls' & Hidx' & Hden').
    exists (evs ++ evs'). unfold FISTA_iterated. cbn [calls].
    rewrite Hcalls', Hcalls, <- app_assoc. split; [reflexivity|].
    unfold error_measurement_indices, denoise_calls in *.
    rewrite !omap_app, Hidx, Hidx', Hden', seq_S_snoc, length_app, Hlen.
    split; [reflexivity|]. cbn. lia.
Qed.

Lemma ISTA_after_calls (n : nat) (w wn : world) (u : unit) :
  ISTA_after n w = Ok (u, wn) ->
  exists lam evs,
    as_number (lmbda (super (self w))) = Some lam /\
    calls wn = calls w ++ evs /\
    error_measurement_indices evs = seq 0 n /\
    length (denoise_calls evs) = n /\
    Forall (fun c => c = (c.1.1, PInt 20, 1 / (2 * __bm__ (self w) * lam)))
           (denoise_calls evs).
Proof.
  revert u wn; induction n as [|n IH]; intros u wn Hn.
  - apply ISTA_after_0 in Hn as (l & Hl & [= _ <-]).
    apply float_mul_inv in Hl as (lam & Hlam & _).
    exists lam, []. rewrite app_nil_r. repeat split; [assumption|constructor].
  - apply ISTA_after_S in Hn as (l & w0 & Hl & Hn & Hit).
    destruct (IH _ _ Hn) as (lam & evs & Hlam & Hcalls & Hidx & Hlen & Hargs).
    apply float_mul_inv in Hl as (lam' & Hlam' & ->).
    rewrite Hlam in Hlam'. injection Hlam' as <-.
    apply ISTA_iteration_spec in Hit as (w1 & x' & Hmin & _ & _ & ->).
    apply dataminimizing_gradient_steps in Hmin.
    destruct (iteration_calls w0 w1 (res (super (self w1))) (PInt 20)
                (1 / (2 * __bm__ (self w) * lam))
                (res_prev_of (Quameasopts (super (self w))) w0) n Hmin)
      as (evs' & Hcalls' & Hidx' & Hden').
    exists lam, (evs ++ evs'). unfold ISTA_iterated. cbn [calls].
    rewrite Hcalls', Hcalls, <- app_assoc.
    split; [exact Hlam|]. split; [reflexivity|].
    unfold error_measurement_indices, denoise_calls in *.
    rewrite !omap_app, Hidx, Hidx', Hden', seq_S_snoc, length_app, Hlen.
    split; [reflexivity|]. split; [cbn; lia|].
    apply Forall_app. split; [exact Hargs|]. repeat constructor.
Qed.

(** X7. A run of FISTA or of ISTA that returns has added to the call log
    exactly [niter] denoiser calls and exactly [niter] calls of the quality
    tracker, the latter numbered [0, 1, ..., niter - 1] in this order (none
    when [niter <= 0]). *)
Theorem run_calls_once_per_iteration (w wf : world) :
  (FISTA_run_main_iter w = Ok (tt, wf) \/ ISTA_run_main_iter w = Ok (tt, wf)) ->
  exists evs,
    calls wf = calls w ++ evs /\
    error_measurement_indices evs = range (niter (super (self w))) /\
    length (denoise_calls evs) = Z.to_nat (niter (super (self w))).
Proof.
  unfold range. intros [Hrun|Hrun].
  - apply FISTA_run_main_iter_after in Hrun as (loc & Hrun).
    apply (FISTA_after_calls _ _ _ _ Hrun).
  - rewrite ISTA_run_main_iter_after in Hrun.
    destruct (ISTA_after_calls _ _ _ _ Hrun)
      as (lam & evs & _ & Hcalls & Hidx & Hlen & _).
    exists evs. repeat split; assumption.
Qed.

(** X8. On an instance that the constructor built, whatever the keywords
    [lambda] and [tviter] were, every denoiser call of an ISTA run that returns
    has the inner-iteration count [20] and the strength [5 * L], where [L] is
    the keyword [hyper] or [2.0e4]. *)
Theorem ISTA_denoiser_arguments_ignore_keywords
    (c : class) (p : rows) (g : geometry) (a : list angle_t) (nit : Z)
    (kwargs : gmap string pyval) (o : FISTA_obj) (cs : list event)
    (wf : world) :
  construct c p g a nit kwargs = Ok o ->
  ISTA_run_main_iter {| self := o; calls := cs |} = Ok (tt, wf) ->
  exists L evs,
    as_number (default (PFloat 2e4) (kwargs !! "hyper")) = Some L /\
    calls wf = cs ++ evs /\
    Forall (fun c => c.1.2 = PInt 20 /\ c.2 = 5 * L) (denoise_calls evs).
Proof.
  intros Hc Hrun.
  assert (Hinit : FISTA___init__ p g a nit kwargs = Ok o)
    by (destruct c; exact Hc).
  apply FISTA___init___inv in Hinit as (b & L & _ & HL & Hne & ->).
  rewrite ISTA_run_main_iter_after in Hrun.
  destruct (ISTA_after_calls _ _ _ _ Hrun)
    as (lam & evs & Hlam & Hcalls & _ & _ & Hargs).
  cbn in Hlam. injection Hlam as <-. cbn [self calls __bm__] in *.
  exists L, evs. split; [exact HL|]. split; [exact Hcalls|].
  eapply Forall_impl; [exact Hargs|].
  intros [[img it] s] [= -> ->]. cbn. split; [reflexivity|].
  replace 0.1 with (1 / 10) by lra. field. exact Hne.
Qed.

(** ** Errors of the constructor and of the code before the loop *)

(** X9. The constructor fails with the base constructor's own error when
    that one fails; otherwise with [TypeError] when the keyword [hyper] is
    not a number and with [ZeroDivisionError] when it is a Python zero; and
    it returns whenever the base constructor does and [hyper] is absent,
    whatever the other keywords are. *)
Theorem constructor_errors
    (c : class) (p : rows) (g : geometry) (a : list angle_t) (nit : Z)
    (kwargs : gmap string pyval) :
  (forall e,
      IterativeReconAlg___init__ p g a nit (FISTA_kwargs a kwargs) = Raise e ->
      construct c p g a nit kwargs = Raise e) /\
  (forall b v,
      IterativeReconAlg___init__ p g a nit (FISTA_kwargs a kwargs) = Ok b ->
      kwargs !! "hyper" = Some v ->
      (as_number v = None -> construct c p g a nit kwargs = Raise TypeError) /\
      (as_number v = Some 0 ->
       construct c p g a nit kwargs = Raise ZeroDivisionError)) /\
  (forall b,
      IterativeReconAlg___init__ p g a nit (FISTA_kwargs a kwargs) = Ok b ->
      kwargs !! "hyper" = None ->
      exists o, construct c p g a nit kwargs = Ok o).
Proof.
  assert (Hc : construct c p g a nit kwargs = FISTA___init__ p g a nit kwargs)
    by (destruct c; reflexivity).
  rewrite Hc. unfold FISTA___init__.
  rewrite !FISTA_kwargs_lookup_other by discriminate.
  split; [|split].
  - intros e ->. reflexivity.
  - intros b v -> ->. cbn [mbind result_bind]. unfold float_truediv. split.
    + intros ->. reflexivity.
    + intros ->. destruct (Req_dec_T 0 0) as [_|Hne]; [reflexivity|].
      contradiction Hne. reflexivity.
  - intros b -> ->. cbn [mbind result_bind].
    rewrite (float_truediv_ok 1 2e4 (PFloat 2e4) eq_refl) by lra.
    eexists. reflexivity.
Qed.

(** X10. The constructor does not check the keyword [lambda]: on an instance
    built with a [lambda] that is not a number, [FISTA.run_main_iter] raises
    [TypeError] at line 169, before the loop and so for every [niter], while
    the code of [ISTA.run_main_iter] before the loop passes. *)
Theorem FISTA_run_rejects_non_numeric_lambda
    (c : class) (p : rows) (g : geometry) (a : list angle_t) (nit : Z)
    (kwargs : gmap string pyval) (o : FISTA_obj) (v : pyval)
    (cs : list event) :
  construct c p g a nit kwargs = Ok o ->
  kwargs !! "lambda" = Some v ->
  as_number v = None ->
  FISTA_run_main_iter {| self := o; calls := cs |} = Raise TypeError /\
  ISTA_after 0 {| self := o; calls := cs |}
    = Ok (tt, {| self := o; calls := cs |}).
Proof.
  intros Hc Hv Hnum.
  assert (Hinit : FISTA___init__ p g a nit kwargs = Ok o)
    by (destruct c; exact Hc).
  apply FISTA___init___inv in Hinit as (b & L & _ & _ & _ & ->).
  rewrite Hv. cbn [default from_option]. unfold Datatypes.id. split.
  - unfold FISTA_run_main_iter, mbind, M_bind, get_self, lift, float_mul.
    cbn [self __lambda__]. rewrite Hnum. reflexivity.
  - apply ISTA_after_0. eexists. split; reflexivity.
Qed.

(** X11. The dictionary that reaches the base constructor has the keys of the
    caller's one and [blocksize], [W], [V], and agrees with the caller's on
    every other key. *)
Theorem constructor_forwards_other_keywords
    (c : class) (p : rows) (g : geometry) (a : list angle_t) (nit : Z)
    (kwargs : gmap string pyval) (o : FISTA_obj) :
  construct c p g a nit kwargs = Ok o ->
  exists kw b,
    IterativeReconAlg___init__ p g a nit kw = Ok b /\
    super o = with_lmbda (PFloat 0.1) b /\
    dom kw = {["blocksize"]} ∪ ({["V"]} ∪ ({["W"]} ∪ dom kwargs)) /\
    (forall k, k <> "blocksize" -> k <> "W" -> k <> "V" ->
               kw !! k = kwargs !! k).
Proof.
  intros Hc.
  assert (Hinit : FISTA___init__ p g a nit kwargs = Ok o)
    by (destruct c; exact Hc).
  apply FISTA___init___inv in Hinit as (b & L & Hb & _ & _ & ->).
  exists (FISTA_kwargs a kwargs), b.
  split; [exact Hb|]. split; [reflexivity|]. split.
  - unfold FISTA_kwargs. rewrite !dom_insert_L. reflexivity.
  - intros k Hb' HW HV. apply FISTA_kwargs_lookup_other; assumption.
Qed.

(** X12. With a negative [niter], as with [0], [range(niter)] is empty: a run
    of either class that returns has changed nothing and recorded no call,
    and it returns when the strength read before the loop is a number. *)
Theorem nonpositive_niter_runs_nothing (w : world) :
  (niter (super (self w)) <= 0)%Z ->
  (forall wf, FISTA_run_main_iter w = Ok (tt, wf) \/
              ISTA_run_main_iter w = Ok (tt, wf) -> wf = w) /\
  (is_Some (as_number (__lambda__ (self w))) ->
   FISTA_run_main_iter w = Ok (tt, w)) /\
  (is_Some (as_number (lmbda (super (self w)))) ->
   ISTA_run_main_iter w = Ok (tt, w)).
Proof.
  intros Hn.
  assert (Hz : Z.to_nat (niter (super (self w))) = 0%nat) by lia.
  split; [|split].
  - intros wf [Hrun|Hrun].
    + apply FISTA_run_main_iter_after in Hrun as (loc & Hrun).
      rewrite Hz in Hrun.
      apply FISTA_after_0 in Hrun as (lam & _ & [= _ ->]). reflexivity.
    + rewrite ISTA_run_main_iter_after, Hz in Hrun.
      apply ISTA_after_0 in Hrun as (lam & _ & [= ->]). reflexivity.
  - intros [lam Hlam]. apply FISTA_run_main_iter_after. eexists.
    rewrite Hz. apply FISTA_after_0.
    eexists. split; [apply float_mul_ok; exact Hlam|reflexivity].
  - intros [lam Hlam]. rewrite ISTA_run_main_iter_after, Hz.
    apply ISTA_after_0.
    eexists. split; [apply float_mul_ok; exact Hlam|reflexivity].
Qed.

(** ** ISTA keeps no state between iterations *)

Lemma self_sim_bind {A B : Type} (m1 m2 : M A) (k1 k2 : A -> M B) :
  self_sim m1 m2 -> (forall a, self_sim (k1 a) (k2 a)) ->
  self_sim (m1 ≫= k1) (m2 ≫= k2).
Proof.
  intros Hm Hk w v Hwv. specialize (Hm w v Hwv).
  unfold mbind, M_bind, same_self in *.
  destruct (m1 w) as [[a1 w1]|e1], (m2 v) as [[a2 v1]|e2]; try contradiction.
  - destruct Hm as [<- Hs]. apply (Hk a1 w1 v1 Hs).
  - exact Hm.
Qed.

Lemma self_sim_get_self : self_sim get_self get_self.
Proof. intros w v Hwv. cbn. split; assumption. Qed.

Lemma self_sim_lift {A : Type} (r : result A) : self_sim (lift r) (lift r).
Proof. intros w v Hwv. unfold lift. destruct r; cbn; [split|]; auto. Qed.

Lemma self_sim_record_call (e1 e2 : event) :
  self_sim (record_call e1) (record_call e2).
Proof. intros w v Hwv. cbn. split; [reflexivity|assumption]. Qed.

Lemma self_sim_set_res (r : array) : self_sim (set_res r) (set_res r).
Proof. intros w v Hwv. cbn. rewrite Hwv. split; reflexivity. Qed.

Lemma self_sim_set_lq (q : list (list R)) : self_sim (set_lq q) (set_lq q).
Proof. intros w v Hwv. cbn. rewrite Hwv. split; reflexivity. Qed.

Lemma self_sim_ret {A : Type} (a : A) : self_sim (mret a) (mret a).
Proof. intros w v Hwv. cbn. split; [reflexivity|assumption]. Qed.

Lemma self_sim_for_each {L : Type} (body1 body2 : L -> nat -> M L)
    (ks1 ks2 : list nat) :
  Forall2 (fun i j => forall l, self_sim (body1 l i) (body2 l j)) ks1 ks2 ->
  forall loc, self_sim (for_each body1 ks1 loc) (for_each body2 ks2 loc).
Proof.
  induction 1 as [|i j ks1 ks2 Hij _ IH]; intros loc.
  - apply self_sim_ret.
  - cbn [for_each]. apply self_sim_bind; [apply Hij|]. exact IH.
Qed.

Lemma self_sim_update_image (g : geometry) (angle : list angle_t) (j : nat) :
  self_sim (update_image g angle j) (update_image g angle j).
Proof.
  unfold update_image.
  apply self_sim_bind; [apply self_sim_record_call|]. intros _.
  apply self_sim_bind; [apply self_sim_get_self|]. intros o.
  repeat (apply self_sim_bind; [apply self_sim_lift|]; intros ?).
  apply self_sim_set_res.
Qed.

Lemma self_sim_dataminimizing : self_sim dataminimizing dataminimizing.
Proof.
  unfold dataminimizing.
  apply self_sim_bind; [apply self_sim_get_self|]. intros o.
  apply self_sim_for_each. apply Forall_Forall2_diag, Forall_forall.
  intros j _ []. apply self_sim_bind; [apply self_sim_lift|].
  intros angle. apply self_sim_update_image.
Qed.

Lemma self_sim_error_measurement (rp : option array) (i j : nat) :
  self_sim (error_measurement rp i) (error_measurement rp j).
Proof.
  unfold error_measurement.
  apply self_sim_bind; [apply self_sim_record_call|]. intros _.
  apply self_sim_bind; [apply self_sim_get_self|]. intros o.
  destruct (Quameasopts (super o)); [apply self_sim_set_lq|apply self_sim_ret].
Qed.

Lemma self_sim_call_im3ddenoise (img : array) (iter : pyval) (s : R) :
  self_sim (call_im3ddenoise img iter s) (call_im3ddenoise img iter s).
Proof.
  unfold call_im3ddenoise.
  apply self_sim_bind; [apply self_sim_record_call|]. intros _.
  apply self_sim_lift.
Qed.

Lemma self_sim_ISTA_iteration (Q : option (list string)) (lam : R)
    (u : unit) (i j : nat) :
  self_sim (ISTA_iteration Q lam u i) (ISTA_iteration Q lam u j).
Proof.
  unfold ISTA_iteration.
  apply self_sim_bind; [apply self_sim_get_self|]. intros o.
  apply self_sim_bind; [apply self_sim_dataminimizing|]. intros _.
  apply self_sim_bind; [apply self_sim_get_self|]. intros o'.
  apply self_sim_bind; [apply self_sim_lift|]. intros s.
  apply self_sim_bind; [apply self_sim_call_im3ddenoise|]. intros r.
  apply self_sim_bind; [apply self_sim_set_res|]. intros _.
  apply self_sim_error_measurement.
Qed.

Lemma ISTA_after_unfold (n : nat) (w : world) :
  ISTA_after n w =
  match float_mul (2 * __bm__ (self w)) (lmbda (super (self w))) with
  | Ok lam =>
      for_each (ISTA_iteration (Quameasopts (super (self w))) lam) (seq 0 n) tt w
  | Raise e => Raise e
  end.
Proof.
  unfold ISTA_after, ISTA_loop, mbind, M_bind, get_self, lift.
  destruct (float_mul _ _); reflexivity.
Qed.

(** X13. ISTA carries nothing from one iteration to the next but the
    instance: [a] iterations followed by a run of [b] further iterations on
    the instance they leave return exactly when [a + b] iterations at once
    do, and leave the same instance (estimate and quality trace); only the
    iteration numbers handed to the quality tracker differ. *)
Theorem ISTA_runs_compose (a b : nat) (w w1 : world) :
  ISTA_after a w = Ok (tt, w1) ->
  (forall w2, ISTA_after b w1 = Ok (tt, w2) ->
     exists w', ISTA_after (a + b) w = Ok (tt, w') /\ self w' = self w2) /\
  (forall w', ISTA_after (a + b) w = Ok (tt, w') ->
     exists w2, ISTA_after b w1 = Ok (tt, w2) /\ self w2 = self w').
Proof.
  intros Ha.
  pose proof (ISTA_after_config _ _ _ _ Ha) as Hc.
  apply config_fields in Hc as (_ & _ & _ & Hbm & _ & HQ & Hlmbda).
  rewrite ISTA_after_unfold in Ha.
  rewrite (ISTA_after_unfold b w1), (ISTA_after_unfold (a + b) w).
  rewrite Hbm, HQ, Hlmbda.
  destruct (float_mul _ _) as [lam|e]; [|discriminate].
  rewrite seq_app, for_each_app. cbn [plus].
  rewrite !(bind_ok _ _ _ _ _ Ha).
  set (Q := Quameasopts (super (self w))).
  assert (Hsim : same_self (for_each (ISTA_iteration Q lam) (seq a b) tt w1)
                           (for_each (ISTA_iteration Q lam) (seq 0 b) tt w1)).
  { apply self_sim_for_each; [|reflexivity].
    apply Forall2_same_length_lookup_2; [rewrite !length_seq; reflexivity|].
    intros k i j _ _ []. apply self_sim_ISTA_iteration. }
  unfold same_self in Hsim.
  destruct (for_each _ (seq a b) tt w1) as [[[] w']|e1],
           (for_each _ (seq 0 b) tt w1) as [[[] w2]|e2]; try contradiction.
  - destruct Hsim as [_ Hs]. split.
    + intros ? [= <-]. exists w'. split; [reflexivity|exact Hs].
    + intros ? [= <-]. exists w2. split; [reflexivity|symmetry; exact Hs].
  - split; intros ? [=].
Qed.



(** X15. A run of either class that returns has changed no attribute other
    than the estimate [res] and the quality trace [lq]: the data, the angle
    partition, [niter], the options and the hyperparameters are as before. *)
Theorem run_changes_only_estimate_and_trace (w wf : world) :
  (FISTA_run_main_iter w = Ok (tt, wf) \/ ISTA_run_main_iter w = Ok (tt, wf)) ->
  config (self wf) = config (self w).
Proof.
  intros [Hrun|Hrun].
  - apply FISTA_run_main_iter_after in Hrun as (loc & Hrun).
    apply (FISTA_after_config _ _ _ _ Hrun).
  - rewrite ISTA_run_main_iter_after in Hrun.
    apply (ISTA_after_config _ _ _ _ Hrun).
Qed.

End Properties.

(** ** The concrete setting at work *)

Section DemoRuns.
Import Demo.
#[local] Existing Instance demo_geometry.
#[local] Existing Instance demo_collaborators.

Lemma demo_lambdaForTv_value : demo_lambdaForTv = 1 / 100000.
Proof. unfold demo_lambdaForTv. lra. Qed.

Lemma demo_lambdaForTv_nonzero : demo_lambdaForTv <> 0.
Proof. rewrite demo_lambdaForTv_value. lra. Qed.

Lemma demo_update_image (n : Z) (kwargs : gmap string pyval) :
  update_image tt [0%nat; 1%nat] 0 (demo_world n kwargs) =
  Ok (tt, demo_gradient n kwargs).
Proof.
  unfold demo_gradient.
  apply update_image_ok with (idx := [0%nat; 1%nat]) (p := [[-1]; [3]])
                             (fp := [[0]; [0]]); try reflexivity.
  repeat constructor.
Qed.

Lemma demo_dataminimizing (n : Z) (kwargs : gmap string pyval) :
  dataminimizing (demo_world n kwargs) = Ok (tt, demo_gradient n kwargs).
Proof.
  apply dataminimizing_one_block with (angle := [0%nat; 1%nat]).
  - reflexivity.
  - apply demo_update_image.
Qed.

Lemma demo_FISTA_lambdaForTv (n : Z) (kwargs : gmap string pyval) :
  kwargs !! "lambda" = None ->
  float_mul (2 * __bm__ (self (demo_world n kwargs)))
            (__lambda__ (self (demo_world n kwargs))) = Ok demo_lambdaForTv.
Proof.
  intros Hl. unfold demo_world, demo_obj. cbn [self __bm__ __lambda__].
  rewrite Hl. reflexivity.
Qed.

Lemma demo_FISTA_after_0 (n : Z) (kwargs : gmap string pyval) :
  kwargs !! "lambda" = None ->
  FISTA_after 0 (demo_world n kwargs) = Ok ((1, [0]), demo_world n kwargs).
Proof.
  intros Hl. apply FISTA_after_0. exists demo_lambdaForTv.
  split; [apply demo_FISTA_lambdaForTv, Hl|reflexivity].
Qed.

Lemma demo_FISTA_after_1 (n : Z) (kwargs : gmap string pyval) :
  kwargs !! "lambda" = None ->
  FISTA_after 1 (demo_world n kwargs) =
  Ok ((t_next 1, res (super (self (demo_gradient n kwargs)))),
      demo_FISTA_1 n kwargs).
Proof.
  intros Hl. apply FISTA_after_S.
  exists demo_lambdaForTv, (1, [0]), (demo_world n kwargs).
  split; [apply demo_FISTA_lambdaForTv, Hl|]. split.
  - apply demo_FISTA_after_0, Hl.
  - apply FISTA_iteration_spec.
    exists (demo_gradient n kwargs), (res (super (self (demo_gradient n kwargs)))).
    split; [apply demo_dataminimizing|].
    split; [apply demo_lambdaForTv_nonzero|].
    repeat split.
Qed.

Lemma demo_FISTA_run (kwargs : gmap string pyval) :
  kwargs !! "lambda" = None ->
  FISTA_run_main_iter (demo_world 1 kwargs) = Ok (tt, demo_FISTA_1 1 kwargs).
Proof.
  intros Hl. apply FISTA_run_main_iter_after. eexists.
  apply demo_FISTA_after_1, Hl.
Qed.

Lemma demo_FISTA_run_default :
  FISTA_run_main_iter (demo_world 1 ∅) = Ok (tt, demo_FISTA_1 1 ∅).
Proof. apply demo_FISTA_run, lookup_empty. Qed.

Lemma demo_FISTA_run_measuring :
  FISTA_run_main_iter (demo_world 1 {["Quameasopts" := PStr "RMSE"]}) =
  Ok (tt, demo_FISTA_1 1 {["Quameasopts" := PStr "RMSE"]}).
Proof. apply demo_FISTA_run. reflexivity. Qed.

Lemma demo_ISTA_after_1 (n : Z) (kwargs : gmap string pyval) :
  ISTA_after 1 (demo_world n kwargs) = Ok (tt, demo_ISTA_1 n kwargs).
Proof.
  apply ISTA_after_S.
  exists demo_lambdaForTv, (demo_world n kwargs).
  split; [reflexivity|]. split.
  - apply ISTA_after_0. exists demo_lambdaForTv. split; reflexivity.
  - apply ISTA_iteration_spec.
    exists (demo_gradient n kwargs), (res (super (self (demo_gradient n kwargs)))).
    split; [apply demo_dataminimizing|].
    split; [apply demo_lambdaForTv_nonzero|].
    repeat split.
Qed.

Lemma demo_ISTA_run (kwargs : gmap string pyval) :
  ISTA_run_main_iter (demo_world 1 kwargs) = Ok (tt, demo_ISTA_1 1 kwargs).
Proof. rewrite ISTA_run_main_iter_after. apply demo_ISTA_after_1. Qed.

Lemma demo_construct (c : class) (n : Z) (kwargs : gmap string pyval) :
  kwargs !! "hyper" = None -> kwargs !! "tviter" = None ->
  construct c [[-1]; [3]] tt [0%nat; 1%nat] n kwargs = Ok (demo_obj n kwargs).
Proof.
  intros Hh Ht.
  assert (Hc : construct c [[-1]; [3]] tt [0%nat; 1%nat] n kwargs =
               FISTA___init__ [[-1]; [3]] tt [0%nat; 1%nat] n kwargs)
    by (destruct c; reflexivity).
  rewrite Hc. unfold FISTA___init__.
  rewrite !FISTA_kwargs_lookup_other by discriminate.
  rewrite Hh, Ht. cbn [IterativeReconAlg___init__ demo_collaborators].
  unfold demo_base_init. cbn [mbind result_bind].
  rewrite (float_truediv_ok 1 2e4 (PFloat 2e4) eq_refl) by lra.
  cbn [mbind result_bind]. unfold mret, result_ret, demo_obj, with_lmbda.
  cbn [res proj geo angles angleblocks angle_index niter Quameasopts verbose
       lmbda lq hd map length seq].
  rewrite FISTA_kwargs_lookup_other by discriminate.
  destruct (kwargs !! "lambda"); reflexivity.
Qed.

(** *** Evaluations in the concrete setting *)

Lemma demo_construct_default (c : class) (n : Z) :
  construct c [[-1]; [3]] tt [0%nat; 1%nat] n ∅ = Ok (demo_obj n ∅).
Proof. apply demo_construct; apply lookup_empty. Qed.

Lemma demo_FISTA_1_calls (n : Z) (kwargs : gmap string pyval) :
  calls (demo_FISTA_1 n kwargs) =
  [Call_update_image [0%nat; 1%nat] 0;
   Call_im3ddenoise (res (super (self (demo_gradient n kwargs)))) (PInt 20)
                    (1 / demo_lambdaForTv);
   Call_error_measurement
     (res_prev_of (Quameasopts (super (demo_obj n kwargs))) (demo_world n kwargs))
     0].
Proof. reflexivity. Qed.

Lemma demo_ISTA_1_calls (n : Z) (kwargs : gmap string pyval) :
  calls (demo_ISTA_1 n kwargs) =
  [Call_update_image [0%nat; 1%nat] 0;
   Call_im3ddenoise (res (super (self (demo_gradient n kwargs)))) (PInt 20)
                    (1 / demo_lambdaForTv);
   Call_error_measurement
     (res_prev_of (Quameasopts (super (demo_obj n kwargs))) (demo_world n kwargs))
     0].
Proof. reflexivity. Qed.

Lemma demo_gradient_res (n : Z) (kwargs : gmap string pyval) :
  res (super (self (demo_gradient n kwargs))) = [- (1 / 10000)].
Proof.
  unfold demo_gradient, after_update, vadd, np_scale, demo_world, demo_obj.
  cbn [self super res with_res zip_with map __bm__].
  f_equal. lra.
Qed.

Lemma demo_block_update :
  update_image tt [2%nat; 0%nat] 0 demo_block_world =
  Ok (tt, after_update [2%nat; 0%nat] 0 [-1 - 0] demo_block_world).
Proof.
  apply update_image_ok with (idx := [2%nat; 0%nat]) (p := [[-1]; [3]])
                             (fp := [[0]; [0]]); try reflexivity.
  repeat constructor.
Qed.

Lemma singleton_of_lookup (l : list R) (r : R) :
  length l = 1%nat -> l !! 0%nat = Some r -> l = [r].
Proof.
  destruct l as [|x [|y l]]; cbn; try discriminate.
  intros _ [= ->]. reflexivity.
Qed.

(** The gradient step on the block [[2; 0]] of three measured rows [3], [5],
    [-1] takes the third row first: it back-projects [-1 - 0] and takes the
    estimate [[0]] to [[-1/10000]]; the negative entry stays. *)
Lemma update_image_adds_backprojection_witness :
  update_image tt [2%nat; 0%nat] 0 demo_block_world =
    Ok (tt, after_update [2%nat; 0%nat] 0 [-1 - 0] demo_block_world) /\
  res (super (self (after_update [2%nat; 0%nat] 0 [-1 - 0] demo_block_world)))
    = [- (1 / 10000)].
Proof.
  split; [apply demo_block_update|].
  pose proof demo_block_update as Hu.
  apply (proj1 (proj2 (proj2 (@update_image_adds_backprojection
           demo_geometry demo_collaborators _ _ _ _ _)))) in Hu
    as (idx & p & fp & bp & Hidx & Hp & Hfp & _ & Hbp & _ & _ & _ & Hlen & Hel).
  injection Hidx as <-.
  apply Forall2_cons_inv_l in Hp as (r1 & p1 & Hr1 & Hp & ->).
  apply Forall2_cons_inv_l in Hp as (r2 & p2 & Hr2 & Hp & ->).
  apply Forall2_nil_inv_l in Hp as ->.
  injection Hr1 as <-. injection Hr2 as <-.
  injection Hfp as <-. injection Hbp as <-.
  apply singleton_of_lookup; [exact Hlen|].
  etransitivity; [exact (Hel 0%nat 0 (-1 - 0) eq_refl eq_refl)|]. f_equal.
  unfold demo_block_world. cbn [self __bm__]. lra.
Defined.


(** ISTA reads the attribute [lmbda], which the constructor sets to [0.1],
    and not [__lambda__]: constructed with the keyword [lambda = 0.5], it
    still calls the denoiser with [1 / (2 * bm * 0.1) = 100000], where
    [1 / (2 * bm * 0.5)] would be [20000]. *)
Lemma ISTA_ignores_lambda_keyword :
  construct ISTA [[-1]; [3]] tt [0%nat; 1%nat] 1 {["lambda" := PFloat 0.5]}
    = Ok (demo_obj 1 {["lambda" := PFloat 0.5]}) /\
  __lambda__ (demo_obj 1 {["lambda" := PFloat 0.5]}) = PFloat 0.5 /\
  exists wf img,
    ISTA_run_main_iter (demo_world 1 {["lambda" := PFloat 0.5]}) = Ok (tt, wf) /\
    In (Call_im3ddenoise img (PInt 20) 100000) (calls wf) /\
    1 / (2 * __bm__ (demo_obj 1 {["lambda" := PFloat 0.5]}) * 0.5) = 20000.
Proof.
  split; [apply demo_construct; reflexivity|]. split; [reflexivity|].
  eexists. eexists. split; [apply demo_ISTA_run|]. split.
  - rewrite demo_ISTA_1_calls. right. left. f_equal.
    rewrite demo_lambdaForTv_value. lra.
  - unfold demo_obj. cbn [__bm__]. lra.
Qed.

(** *** Instances of the theorems in the concrete setting *)

Lemma demo_niter_positive : (Z.of_nat 0 < niter (super (self (demo_world 1 ∅))))%Z.
Proof. cbn. lia. Qed.

Lemma demo_FISTA_1_estimate :
  res (super (self (demo_FISTA_1 2 ∅))) = [demo_estimate_1].
Proof. reflexivity. Qed.

Lemma demo_dataminimizing_2 :
  dataminimizing (demo_FISTA_1 2 ∅) = Ok (tt, demo_gradient_2).
Proof.
  apply dataminimizing_one_block with (angle := [0%nat; 1%nat]);
    [reflexivity|].
  apply update_image_ok
    with (idx := [0%nat; 1%nat]) (p := [[-1]; [3]])
         (fp := [[demo_estimate_1]; [demo_estimate_1]]); try reflexivity.
  repeat constructor.
Qed.

Lemma demo_FISTA_after_2 :
  FISTA_after 2 (demo_world 2 ∅) =
  Ok ((t_next (t_next 1), res (super (self demo_gradient_2))), demo_FISTA_2).
Proof.
  apply FISTA_after_S.
  exists demo_lambdaForTv,
         (t_next 1, res (super (self (demo_gradient 2 ∅)))),
         (demo_FISTA_1 2 ∅).
  split; [apply demo_FISTA_lambdaForTv, lookup_empty|]. split.
  - apply demo_FISTA_after_1, lookup_empty.
  - apply FISTA_iteration_spec.
    exists demo_gradient_2, (res (super (self demo_gradient_2))).
    split; [apply demo_dataminimizing_2|].
    split; [apply demo_lambdaForTv_nonzero|].
    repeat split.
Qed.

Lemma demo_FISTA_run_2 :
  FISTA_run_main_iter (demo_world 2 ∅) = Ok (tt, demo_FISTA_2).
Proof.
  apply FISTA_run_main_iter_after. eexists. apply demo_FISTA_after_2.
Qed.

Lemma demo_estimate_1_value : demo_estimate_1 = - (1 / 10000).
Proof.
  unfold demo_estimate_1, demo_FISTA_1. rewrite FISTA_iterated_res.
  rewrite (demo_gradient_res 2 ∅).
  unfold vadd, vsub, np_scale. cbn [zip_with map hd].
  replace ((1 - 1) / t_next 1) with 0
    by (unfold Rdiv; rewrite Rminus_diag, Rmult_0_l; reflexivity).
  lra.
Qed.

Lemma demo_gradient_2_res :
  res (super (self demo_gradient_2)) = [- (19999 / 100000000)].
Proof.
  assert (Hbm : __bm__ (self (demo_FISTA_1 2 ∅)) = 1 / 2e4) by reflexivity.
  unfold demo_gradient_2, after_update.
  cbn [self super res with_res]. rewrite Hbm, demo_FISTA_1_estimate.
  unfold vadd, np_scale. cbn [zip_with map].
  rewrite demo_estimate_1_value. f_equal. lra.
Qed.

(** The second iteration of the concrete two-iteration FISTA run: the
    denoised iterates are [[-1/10000]] and then [[-19999/100000000]], the
    weight [(t_next 1 - 1) / t_next (t_next 1)] is positive, and the estimate
    the iteration ends with lies strictly below the new iterate: the momentum
    term is added. *)
Lemma FISTA_extrapolates_from_previous_witness :
  FISTA_run_main_iter (demo_world 2 ∅) = Ok (tt, demo_FISTA_2) /\
  (Z.of_nat 1 < niter (super (self (demo_world 2 ∅))))%Z /\
  exists r,
    res (super (self demo_FISTA_2)) = [r] /\
    r = - (19999 / 100000000) +
        (t_next 1 - 1) / t_next (t_next 1) *
        (- (19999 / 100000000) - - (1 / 10000)) /\
    r < - (19999 / 100000000).
Proof.
  assert (Hniter : (Z.of_nat 1 < niter (super (self (demo_world 2 ∅))))%Z)
    by (cbn; lia).
  split; [apply demo_FISTA_run_2|]. split; [exact Hniter|].
  destruct (@FISTA_extrapolates_from_previous demo_geometry demo_collaborators
              (demo_world 2 ∅) demo_FISTA_2 1%nat demo_FISTA_run_2 Hniter)
    as (t_old & x_old & wi & w1 & s & t_new & x_new & wi'
        & H1 & _ & _ & H2 & Ht & _ & Hlen & Hel).
  pose proof (demo_FISTA_after_1 2 ∅ (lookup_empty _)) as D1.
  pose proof demo_FISTA_after_2 as D2.
  assert (Et : t_old = t_next 1) by congruence.
  assert (Ex : x_old = res (super (self (demo_gradient 2 ∅)))) by congruence.
  assert (Etn : t_new = t_next (t_next 1)) by congruence.
  assert (Exn : x_new = res (super (self demo_gradient_2))) by congruence.
  assert (Ew : wi' = demo_FISTA_2) by congruence.
  subst t_old x_old t_new x_new wi'. clear H1 H2 D1 D2.
  rewrite demo_gradient_2_res in Hlen, Hel.
  rewrite (demo_gradient_res 2 ∅) in Hel.
  specialize (Hel 0%nat _ _ eq_refl eq_refl).
  eexists. split; [apply singleton_of_lookup; [exact Hlen|exact Hel]|].
  split; [reflexivity|].
  pose proof (t_next_gt 1) as Hgt.
  pose proof (t_next_ge_1 (t_next 1)) as Hge.
  assert (Hw : 0 < (t_next 1 - 1) / t_next (t_next 1))
    by (apply Rdiv_lt_0_compat; lra).
  change (t_next (t_next 1))
    with ((1 + sqrt (1 + 4 * t_next 1 ^ 2)) / 2) in Hw.
  lra.
Defined.

(** The momentum of the concrete FISTA run goes from [1] to [t_next 1]. *)
Lemma FISTA_momentum_sequence_witness :
  FISTA___init__ [[-1]; [3]] tt [0%nat; 1%nat] 1 ∅ = Ok (demo_obj 1 ∅) /\
  t_next 1 = (1 + sqrt (1 + 4 * 1 ^ 2)) / 2 /\ 1 < t_next 1.
Proof.
  split; [exact (demo_construct_default FISTA 1)|].
  pose proof (@FISTA_momentum_sequence demo_geometry demo_collaborators
                [[-1]; [3]] tt [0%nat; 1%nat] 1%Z ∅ (demo_obj 1 ∅) []
                (demo_construct_default FISTA 1))
    as (_ & Hstep & _).
  apply (Hstep 0%nat 1 [0] (demo_world 1 ∅) (t_next 1)
               (res (super (self (demo_gradient 1 ∅)))) (demo_FISTA_1 1 ∅)).
  - apply demo_FISTA_after_0, lookup_empty.
  - apply demo_FISTA_after_1, lookup_empty.
Defined.

(** The denoiser call of the concrete FISTA run. *)
Lemma FISTA_denoiser_call_witness :
  FISTA_run_main_iter (demo_world 1 ∅) = Ok (tt, demo_FISTA_1 1 ∅) /\
  (Z.of_nat 0 < niter (super (self (demo_world 1 ∅))))%Z /\
  exists lambda loc wi w1 loc' wi' res_prev,
    as_number (__lambda__ (self (demo_world 1 ∅))) = Some lambda /\
    FISTA_after 0 (demo_world 1 ∅) = Ok (loc, wi) /\
    dataminimizing wi = Ok (tt, w1) /\
    gradient_steps wi w1 /\
    FISTA_after 1 (demo_world 1 ∅) = Ok (loc', wi') /\
    calls wi' =
      calls w1 ++
      [Call_im3ddenoise (res (super (self w1)))
                        (__numiter_tv__ (self (demo_world 1 ∅)))
                        (1 / (2 * __bm__ (self (demo_world 1 ∅)) * lambda));
       Call_error_measurement res_prev 0].
Proof.
  split; [apply demo_FISTA_run_default|]. split; [apply demo_niter_positive|].
  apply (@FISTA_denoiser_call demo_geometry demo_collaborators
           (demo_world 1 ∅) (demo_FISTA_1 1 ∅) 0%nat).
  - apply demo_FISTA_run_default.
  - apply demo_niter_positive.
Defined.

(** The denoiser call of the concrete ISTA run. *)
Lemma ISTA_iteration_denoises_witness :
  as_number (__lambda__ (self (demo_world 1 ∅))) = Some 0.1 /\
  as_number (lmbda (super (self (demo_world 1 ∅)))) = Some 0.1 /\
  ISTA_run_main_iter (demo_world 1 ∅) = Ok (tt, demo_ISTA_1 1 ∅) /\
  (Z.of_nat 0 < niter (super (self (demo_world 1 ∅))))%Z /\
  exists wi w1 x' wi' res_prev,
    ISTA_after 0 (demo_world 1 ∅) = Ok (tt, wi) /\
    dataminimizing wi = Ok (tt, w1) /\
    gradient_steps wi w1 /\
    im3ddenoise (res (super (self w1))) (PInt 20)
                (1 / (2 * __bm__ (self (demo_world 1 ∅)) * 0.1)) = Ok x' /\
    ISTA_after 1 (demo_world 1 ∅) = Ok (tt, wi') /\
    calls wi' =
      calls w1 ++
      [Call_im3ddenoise (res (super (self w1))) (PInt 20)
                        (1 / (2 * __bm__ (self (demo_world 1 ∅)) * 0.1));
       Call_error_measurement res_prev 0] /\
    res (super (self wi')) = x'.
Proof.
  split; [reflexivity|]. split; [reflexivity|].
  split; [apply demo_ISTA_run|]. split; [apply demo_niter_positive|].
  apply (@ISTA_iteration_denoises demo_geometry demo_collaborators
           (demo_world 1 ∅) (demo_ISTA_1 1 ∅) 0%nat 0.1).
  - reflexivity.
  - reflexivity.
  - apply demo_ISTA_run.
  - apply demo_niter_positive.
Defined.


(** In the concrete FISTA run with the default [lambda = 0.1] the denoiser is
    called with strength [1 / lambdaForTv = 100000], which is not
    [lambdaForTv = 2 * bm * lambda = 1 / 100000]. *)
Lemma FISTA_denoiser_strength_counterexample :
  ~ (forall wf img iter s,
       FISTA_run_main_iter (demo_world 1 ∅) = Ok (tt, wf) ->
       In (Call_im3ddenoise img iter s) (calls wf) ->
       iter = __numiter_tv__ (self (demo_world 1 ∅)) /\
       s = 2 * __bm__ (self (demo_world 1 ∅)) * 0.1).
Proof.
  intros Hclaim.
  destruct (Hclaim _ (res (super (self (demo_gradient 1 ∅)))) (PInt 20)
                   (1 / demo_lambdaForTv) demo_FISTA_run_default) as [_ Hs].
  - rewrite demo_FISTA_1_calls. right. left. reflexivity.
  - rewrite demo_lambdaForTv_value in Hs.
    unfold demo_world, demo_obj in Hs. cbn [self __bm__] in Hs. lra.
Qed.

(** The same in the concrete ISTA run. *)
Lemma ISTA_denoiser_strength_counterexample :
  ~ (forall wf img iter s,
       ISTA_run_main_iter (demo_world 1 ∅) = Ok (tt, wf) ->
       In (Call_im3ddenoise img iter s) (calls wf) ->
       iter = PInt 20 /\
       s = 2 * __bm__ (self (demo_world 1 ∅)) * 0.1).
Proof.
  intros Hclaim.
  destruct (Hclaim _ (res (super (self (demo_gradient 1 ∅)))) (PInt 20)
                   (1 / demo_lambdaForTv) (demo_ISTA_run ∅)) as [_ Hs].
  - rewrite demo_ISTA_1_calls. right. left. reflexivity.
  - rewrite demo_lambdaForTv_value in Hs.
    unfold demo_world, demo_obj in Hs. cbn [self __bm__] in Hs. lra.
Qed.

(** With quality measurement on, the first iteration of the concrete runs
    already hands the quality tracker a previous estimate, [[0]]. *)
Lemma first_iteration_previous_estimate_counterexample :
  Quameasopts (super (self (demo_world 1 {["Quameasopts" := PStr "RMSE"]})))
    = Some ["RMSE"] /\
  ~ (forall wf res_prev,
       FISTA_run_main_iter (demo_world 1 {["Quameasopts" := PStr "RMSE"]})
         = Ok (tt, wf) ->
       In (Call_error_measurement res_prev 0) (calls wf) ->
       res_prev = None) /\
  ~ (forall wf res_prev,
       ISTA_run_main_iter (demo_world 1 {["Quameasopts" := PStr "RMSE"]})
         = Ok (tt, wf) ->
       In (Call_error_measurement res_prev 0) (calls wf) ->
       res_prev = None).
Proof.
  split; [reflexivity|]. split; intros Hclaim.
  - specialize (Hclaim _ (Some [0]) demo_FISTA_run_measuring).
    discriminate Hclaim.
    rewrite demo_FISTA_1_calls. right. right. left. reflexivity.
  - specialize (Hclaim _ (Some [0]) (demo_ISTA_run _)).
    discriminate Hclaim.
    rewrite demo_ISTA_1_calls. right. right. left. reflexivity.
Qed.

(** The first iteration of the concrete runs with quality measurement on. *)
Lemma error_measurement_receives_previous_witness :
  (Z.of_nat 0 < niter (super (self (demo_world 1 {["Quameasopts" := PStr "RMSE"]}))))%Z /\
  FISTA_run_main_iter (demo_world 1 {["Quameasopts" := PStr "RMSE"]})
    = Ok (tt, demo_FISTA_1 1 {["Quameasopts" := PStr "RMSE"]}) /\
  exists loc wi loc' wi' evs img iter s,
    FISTA_after 0 (demo_world 1 {["Quameasopts" := PStr "RMSE"]}) = Ok (loc, wi) /\
    FISTA_after 1 (demo_world 1 {["Quameasopts" := PStr "RMSE"]}) = Ok (loc', wi') /\
    Forall is_update_image evs /\
    calls wi' =
      calls wi ++ evs ++
      [Call_im3ddenoise img iter s;
       Call_error_measurement
         match Quameasopts (super (self (demo_world 1 {["Quameasopts" := PStr "RMSE"]}))) with
         | None => None
         | Some _ => Some (res (super (self wi)))
         end 0].
Proof.
  split; [cbn; lia|]. split; [apply demo_FISTA_run_measuring|].
  apply (proj1 (@error_measurement_receives_previous
                  demo_geometry demo_collaborators
                  (demo_world 1 {["Quameasopts" := PStr "RMSE"]})
                  (demo_FISTA_1 1 {["Quameasopts" := PStr "RMSE"]}) 0%nat
                  ltac:(cbn; lia))).
  apply demo_FISTA_run_measuring.
Defined.

(** A concrete instance with [niter = 0]. *)
Lemma niter_zero_is_identity_witness :
  niter (super (self (demo_world 0 ∅))) = 0%Z /\
  FISTA_run_main_iter (demo_world 0 ∅) = Ok (tt, demo_world 0 ∅) /\
  ISTA_run_main_iter (demo_world 0 ∅) = Ok (tt, demo_world 0 ∅).
Proof.
  split; [reflexivity|].
  destruct (@niter_zero_is_identity demo_geometry demo_collaborators
              (demo_world 0 ∅) eq_refl) as (_ & _ & HF & HI).
  split; [apply HF|apply HI]; eexists; reflexivity.
Defined.


(** After the concrete FISTA run the stored momentum is still [1]. *)
Lemma FISTA_run_keeps_stored_t_witness :
  FISTA_run_main_iter (demo_world 1 ∅) = Ok (tt, demo_FISTA_1 1 ∅) /\
  __t__ (self (demo_FISTA_1 1 ∅)) = 1 /\
  (forall n t x wn,
      FISTA_after n (demo_FISTA_1 1 ∅) = Ok ((t, x), wn) -> t = momentum 1 n).
Proof.
  split; [apply demo_FISTA_run_default|].
  destruct (@FISTA_run_keeps_stored_t demo_geometry demo_collaborators
              (demo_world 1 ∅) (demo_FISTA_1 1 ∅) demo_FISTA_run_default)
    as (Ht & _ & Hseq).
  split; [exact Ht|exact Hseq].
Defined.


(** Constructing either class in the concrete setting gives the same
    instance, also when the caller asks for a block size of [1]: the angles
    still form one block. *)
Lemma ISTA_is_constructed_by_FISTA_witness :
  construct ISTA [[-1]; [3]] tt [0%nat; 1%nat] 1 ∅ = Ok (demo_obj 1 ∅) /\
  construct FISTA [[-1]; [3]] tt [0%nat; 1%nat] 1 ∅ = Ok (demo_obj 1 ∅) /\
  construct ISTA [[-1]; [3]] tt [0%nat; 1%nat] 1 (<["blocksize" := PInt 1]> ∅)
    = Ok (demo_obj 1 ∅) /\
  angle_index (super (demo_obj 1 ∅)) = [[0%nat; 1%nat]].
Proof.
  destruct (@ISTA_is_constructed_by_FISTA demo_geometry demo_collaborators
              [[-1]; [3]] tt [0%nat; 1%nat] 1%Z ∅)
    as (_ & _ & Hsame & _ & _ & _ & _ & _ & Hover).
  split; [apply demo_construct_default|].
  split; [rewrite <- Hsame; apply demo_construct_default|].
  split; [|reflexivity].
  rewrite (Hover "blocksize" (PInt 1) (or_introl eq_refl)).
  apply demo_construct_default.
Defined.


(** *** Instances of the further properties *)

Lemma FISTA_momentum_identity_witness :
  FISTA_after 0 (demo_world 1 ∅) = Ok ((1, [0]), demo_world 1 ∅) /\
  t_next 1 * t_next 1 - t_next 1 = 1 * 1.
Proof.
  split; [apply demo_FISTA_after_0, lookup_empty|].
  apply (@FISTA_momentum_identity demo_geometry demo_collaborators
           (demo_world 1 ∅) 0%nat 1 (t_next 1) [0]
           (res (super (self (demo_gradient 1 ∅))))
           (demo_world 1 ∅) (demo_FISTA_1 1 ∅)).
  - apply demo_FISTA_after_0, lookup_empty.
  - apply demo_FISTA_after_1, lookup_empty.
Defined.


Lemma FISTA_extrapolation_weight_witness :
  __t__ (self (demo_world 1 ∅)) = 1 /\
  1 <= t_next 1 /\ 0 <= (1 - 1) / t_next 1 < 1 /\
  (0%nat = 0%nat -> (1 - 1) / t_next 1 = 0).
Proof.
  split; [reflexivity|].
  apply (@FISTA_extrapolation_weight demo_geometry demo_collaborators
           (demo_world 1 ∅) (demo_world 1 ∅) (demo_FISTA_1 1 ∅) 0%nat
           1 (t_next 1) [0] (res (super (self (demo_gradient 1 ∅))))).
  - reflexivity.
  - apply demo_FISTA_after_0, lookup_empty.
  - apply demo_FISTA_after_1, lookup_empty.
Defined.

Lemma demo_Atb_zero (z : rows) (bp : array) :
  all_zero_rows z -> demo_Atb z tt [0%nat; 1%nat] "matched" = Ok bp ->
  all_zero bp.
Proof.
  intros Hz [= <-]. destruct Hz as [|r z Hr _]; [constructor|exact Hr].
Qed.

Lemma demo_consistent_update :
  update_image tt [0%nat; 1%nat] 0 demo_consistent_world =
  Ok (tt, after_update [0%nat; 1%nat] 0 [0 - 0] demo_consistent_world).
Proof.
  apply update_image_ok with (idx := [0%nat; 1%nat]) (p := [[0]; [0]])
                             (fp := [[0]; [0]]); try reflexivity.
  repeat constructor.
Qed.

(** The gradient step on the consistent instance. *)
Lemma update_image_fixes_consistent_estimate_witness :
  update_image tt [0%nat; 1%nat] 0 demo_consistent_world =
    Ok (tt, after_update [0%nat; 1%nat] 0 [0 - 0] demo_consistent_world) /\
  res (super (self (after_update [0%nat; 1%nat] 0 [0 - 0]
                      demo_consistent_world))) = [0].
Proof.
  split; [apply demo_consistent_update|].
  apply (@update_image_fixes_consistent_estimate
           demo_geometry demo_collaborators tt [0%nat; 1%nat] 0%nat
           demo_consistent_world _ [0%nat; 1%nat] [[0]; [0]]).
  - reflexivity.
  - reflexivity.
  - reflexivity.
  - apply demo_Atb_zero.
  - apply demo_consistent_update.
Defined.

Lemma FISTA_first_iteration_is_ISTA_witness :
  FISTA_after 1 (demo_world 1 ∅) =
    Ok ((t_next 1, res (super (self (demo_gradient 1 ∅)))), demo_FISTA_1 1 ∅) /\
  ISTA_after 1 (demo_world 1 ∅) = Ok (tt, demo_FISTA_1 1 ∅).
Proof.
  split; [apply demo_FISTA_after_1, lookup_empty|].
  apply (@FISTA_first_iteration_is_ISTA demo_geometry demo_collaborators
           (demo_world 1 ∅) (demo_FISTA_1 1 ∅)
           (t_next 1, res (super (self (demo_gradient 1 ∅))))).
  - reflexivity.
  - reflexivity.
  - reflexivity.
  - apply demo_FISTA_after_1, lookup_empty.
Defined.

Lemma run_calls_once_per_iteration_witness :
  FISTA_run_main_iter (demo_world 1 ∅) = Ok (tt, demo_FISTA_1 1 ∅) /\
  exists evs,
    calls (demo_FISTA_1 1 ∅) = calls (demo_world 1 ∅) ++ evs /\
    error_measurement_indices evs = [0%nat] /\
    length (denoise_calls evs) = 1%nat.
Proof.
  split; [apply demo_FISTA_run_default|].
  apply (@run_calls_once_per_iteration demo_geometry demo_collaborators
           (demo_world 1 ∅) (demo_FISTA_1 1 ∅)).
  left. apply demo_FISTA_run_default.
Defined.

Lemma ISTA_denoiser_arguments_ignore_keywords_witness :
  construct ISTA [[-1]; [3]] tt [0%nat; 1%nat] 1
            {["lambda" := PFloat 0.5]}
    = Ok (demo_obj 1 {["lambda" := PFloat 0.5]}) /\
  ISTA_run_main_iter (demo_world 1 {["lambda" := PFloat 0.5]})
    = Ok (tt, demo_ISTA_1 1 {["lambda" := PFloat 0.5]}) /\
  exists L evs,
    as_number (PFloat 2e4) = Some L /\
    calls (demo_ISTA_1 1 {["lambda" := PFloat 0.5]}) = [] ++ evs /\
    Forall (fun c => c.1.2 = PInt 20 /\ c.2 = 5 * L) (denoise_calls evs).
Proof.
  assert (Hc : construct ISTA [[-1]; [3]] tt [0%nat; 1%nat] 1
                         {["lambda" := PFloat 0.5]}
               = Ok (demo_obj 1 {["lambda" := PFloat 0.5]}))
    by (apply demo_construct; reflexivity).
  split; [exact Hc|]. split; [apply demo_ISTA_run|].
  exact (@ISTA_denoiser_arguments_ignore_keywords
           demo_geometry demo_collaborators ISTA [[-1]; [3]] tt
           [0%nat; 1%nat] 1%Z {["lambda" := PFloat 0.5]}
           (demo_obj 1 {["lambda" := PFloat 0.5]}) []
           (demo_ISTA_1 1 {["lambda" := PFloat 0.5]})
           Hc (demo_ISTA_run _)).
Defined.

Lemma constructor_errors_witness :
  construct FISTA [[-1]; [3]] tt [0%nat; 1%nat] 1 {["hyper" := PStr "2e4"]}
    = Raise TypeError /\
  construct ISTA [[-1]; [3]] tt [0%nat; 1%nat] 1 {["hyper" := PInt 0]}
    = Raise ZeroDivisionError.
Proof.
  split.
  - edestruct (@constructor_errors demo_geometry demo_collaborators FISTA
                 [[-1]; [3]] tt [0%nat; 1%nat] 1%Z {["hyper" := PStr "2e4"]})
      as (_ & Hbad & _).
    refine (proj1 (Hbad _ (PStr "2e4") _ _) _); reflexivity.
  - edestruct (@constructor_errors demo_geometry demo_collaborators ISTA
                 [[-1]; [3]] tt [0%nat; 1%nat] 1%Z {["hyper" := PInt 0]})
      as (_ & Hbad & _).
    refine (proj2 (Hbad _ (PInt 0) _ _) _); reflexivity.
Defined.

Lemma FISTA_run_rejects_non_numeric_lambda_witness :
  construct FISTA [[-1]; [3]] tt [0%nat; 1%nat] 0 {["lambda" := PStr "0.1"]}
    = Ok (demo_obj 0 {["lambda" := PStr "0.1"]}) /\
  FISTA_run_main_iter (demo_world 0 {["lambda" := PStr "0.1"]})
    = Raise TypeError /\
  ISTA_after 0 (demo_world 0 {["lambda" := PStr "0.1"]})
    = Ok (tt, demo_world 0 {["lambda" := PStr "0.1"]}).
Proof.
  assert (Hc : construct FISTA [[-1]; [3]] tt [0%nat; 1%nat] 0
                         {["lambda" := PStr "0.1"]}
               = Ok (demo_obj 0 {["lambda" := PStr "0.1"]}))
    by (apply demo_construct; reflexivity).
  split; [exact Hc|].
  exact (@FISTA_run_rejects_non_numeric_lambda
           demo_geometry demo_collaborators FISTA [[-1]; [3]] tt
           [0%nat; 1%nat] 0%Z {["lambda" := PStr "0.1"]}
           (demo_obj 0 {["lambda" := PStr "0.1"]}) (PStr "0.1") []
           Hc eq_refl eq_refl).
Defined.

Lemma constructor_forwards_other_keywords_witness :
  construct FISTA [[-1]; [3]] tt [0%nat; 1%nat] 1
            {["Quameasopts" := PStr "RMSE"]}
    = Ok (demo_obj 1 {["Quameasopts" := PStr "RMSE"]}) /\
  exists kw b,
    IterativeReconAlg___init__ [[-1]; [3]] tt [0%nat; 1%nat] 1 kw = Ok b /\
    super (demo_obj 1 {["Quameasopts" := PStr "RMSE"]})
      = with_lmbda (PFloat 0.1) b /\
    dom kw = {["blocksize"]} ∪ ({["V"]} ∪ ({["W"]} ∪
               dom ({["Quameasopts" := PStr "RMSE"]} : gmap string pyval))) /\
    (forall k, k <> "blocksize" -> k <> "W" -> k <> "V" ->
               kw !! k = ({["Quameasopts" := PStr "RMSE"]} : gmap string pyval) !! k).
Proof.
  assert (Hc : construct FISTA [[-1]; [3]] tt [0%nat; 1%nat] 1
                         {["Quameasopts" := PStr "RMSE"]}
               = Ok (demo_obj 1 {["Quameasopts" := PStr "RMSE"]}))
    by (apply demo_construct; reflexivity).
  split; [exact Hc|].
  exact (@constructor_forwards_other_keywords
           demo_geometry demo_collaborators FISTA [[-1]; [3]] tt
           [0%nat; 1%nat] 1%Z {["Quameasopts" := PStr "RMSE"]}
           (demo_obj 1 {["Quameasopts" := PStr "RMSE"]}) Hc).
Defined.

Lemma nonpositive_niter_runs_nothing_witness :
  (niter (super (self (demo_world (-3) ∅))) <= 0)%Z /\
  FISTA_run_main_iter (demo_world (-3) ∅) = Ok (tt, demo_world (-3) ∅) /\
  ISTA_run_main_iter (demo_world (-3) ∅) = Ok (tt, demo_world (-3) ∅).
Proof.
  assert (Hn : (niter (super (self (demo_world (-3) ∅))) <= 0)%Z)
    by (cbn; lia).
  split; [exact Hn|].
  destruct (@nonpositive_niter_runs_nothing demo_geometry demo_collaborators
              (demo_world (-3) ∅) Hn) as (_ & HF & HI).
  split; [apply HF|apply HI]; eexists; reflexivity.
Defined.

Lemma ISTA_runs_compose_witness :
  ISTA_after 1 (demo_world 1 ∅) = Ok (tt, demo_ISTA_1 1 ∅) /\
  (forall w2, ISTA_after 1 (demo_ISTA_1 1 ∅) = Ok (tt, w2) ->
     exists w', ISTA_after 2 (demo_world 1 ∅) = Ok (tt, w') /\
                self w' = self w2) /\
  (forall w', ISTA_after 2 (demo_world 1 ∅) = Ok (tt, w') ->
     exists w2, ISTA_after 1 (demo_ISTA_1 1 ∅) = Ok (tt, w2) /\
                self w2 = self w').
Proof.
  split; [apply demo_ISTA_after_1|].
  exact (@ISTA_runs_compose demo_geometry demo_collaborators 1%nat 1%nat
           (demo_world 1 ∅) (demo_ISTA_1 1 ∅) (demo_ISTA_after_1 1 ∅)).
Defined.



Lemma run_changes_only_estimate_and_trace_witness :
  ISTA_run_main_iter (demo_world 1 ∅) = Ok (tt, demo_ISTA_1 1 ∅) /\
  config (self (demo_ISTA_1 1 ∅)) = config (self (demo_world 1 ∅)).
Proof.
  split; [apply demo_ISTA_run|].
  apply (@run_changes_only_estimate_and_trace demo_geometry demo_collaborators
           (demo_world 1 ∅) (demo_ISTA_1 1 ∅)).
  right. apply demo_ISTA_run.
Defined.

End DemoRuns.

(** ** The setting with a zero back-projection at work *)

Section ZeroRuns.
Import Demo.
#[local] Existing Instance demo_geometry.
#[local] Existing Instance zero_collaborators.

Lemma zero_Atb_zero (d : rows) (g : unit) (a : list nat) (m : string)
    (bp : array) :
  zero_Atb d g a m = Ok bp -> all_zero bp.
Proof.
  intros [= <-]. unfold all_zero. apply Forall_forall.
  intros v Hv. apply list_elem_of_In, in_map_iff in Hv as (_ & <- & _).
  reflexivity.
Qed.

Lemma zero_dataminimizing (n : Z) (kwargs : gmap string pyval) :
  dataminimizing (demo_world n kwargs) =
  Ok (tt, after_update [0%nat; 1%nat] 0 [0] (demo_world n kwargs)).
Proof.
  apply dataminimizing_one_block with (angle := [0%nat; 1%nat]);
    [reflexivity|].
  apply update_image_ok with (idx := [0%nat; 1%nat]) (p := [[-1]; [3]])
                             (fp := [[0]; [0]]); try reflexivity.
  repeat constructor.
Qed.

Lemma zero_FISTA_after_1 :
  exists wn,
    FISTA_after 1 (demo_world 1 ∅) =
    Ok ((t_next 1,
         res (super (self (after_update [0%nat; 1%nat] 0 [0] (demo_world 1 ∅))))),
        wn).
Proof.
  eexists. apply FISTA_after_S.
  exists demo_lambdaForTv, (1, [0]), (demo_world 1 ∅).
  split; [reflexivity|]. split.
  - apply FISTA_after_0. exists demo_lambdaForTv. split; reflexivity.
  - apply FISTA_iteration_spec. eexists. eexists.
    split; [apply zero_dataminimizing|].
    split; [apply demo_lambdaForTv_nonzero|].
    repeat split.
Qed.

(** One iteration of FISTA with the zero back-projection leaves the zero
    estimate of the concrete instance. *)
Lemma zero_backprojection_keeps_estimate_witness :
  exists x wn,
    FISTA_after 1 (demo_world 1 ∅) = Ok ((t_next 1, x), wn) /\
    res (super (self wn)) = [0] /\ x = [0].
Proof.
  destruct zero_FISTA_after_1 as [wn Hn].
  eexists. exists wn. split; [exact Hn|].
  destruct (@zero_backprojection_keeps_estimate demo_geometry zero_collaborators
              (demo_world 1 ∅) zero_Atb_zero
              (fun img iter s x (E : demo_im3ddenoise img iter s = Ok x) =>
                 match E in _ = r return
                       match r with Ok y => y = img | Raise _ => True end
                 with eq_refl => eq_refl end))
    as (HF & _).
  exact (HF _ _ _ _ Hn).
Defined.

End ZeroRuns.
